(** * HandTracking-DangerDetection: the geometric classifier, the
      rectangle controls and the tracker's decisions, embedded from
      [state_logic.py], [main.py] and [hand_tracker.py].

    Numbers.  The code is read at three levels of arithmetic.
    - Exact: [StateLogic] reads floats as real numbers ([R]) and
      [math.hypot] as the Euclidean norm.  It carries the properties that
      rounding does not touch (branch selection, signs, symmetries, the
      thresholds of the classifier, which are exact on doubles) and it is
      the yardstick the other two are measured against.
    - Integer pixels: [Rounded] is the distance function as [main.py]
      calls it, on Python integers, with [math.hypot] the library function
      it is: a parameter, known only to be accurate up to a relative
      error.
    - Doubles: [Binary64] is the distance function on IEEE 754 binary64
      values (Rocq's primitive floats); it shows what rounding does to
      statements about exact distances.

    Exceptions.  A Python call either returns a value or raises; the
    computations below live in the small error monad [Exc]. *)

From Stdlib Require Import Reals Lra Lia ZArith List Bool Ascii Psatz.
From Stdlib Require Floats.
Import ListNotations.

(** ** Exceptions *)

Inductive pyexn : Type :=
| TypeError
| ValueError.

Inductive Exc (A : Type) : Type :=
| Ret (a : A)
| Raise (e : pyexn).

Arguments Ret {A} a.
Arguments Raise {A} e.

Definition bind {A B : Type} (m : Exc A) (k : A -> Exc B) : Exc B :=
  match m with
  | Ret a => k a
  | Raise e => Raise e
  end.

Notation "x <- m ;; k" := (bind m (fun x => k))
  (at level 61, m at next level, right associativity).

Definition exc_map {A B : Type} (f : A -> B) (m : Exc A) : Exc B :=
  x <- m ;; Ret (f x).

(** [returns m] holds when the call finishes without raising. *)
Definition returns {A : Type} (m : Exc A) : Prop := exists a, m = Ret a.

(** ** Comparisons on reals, as booleans *)

Definition Rleb (x y : R) : bool := if Rle_dec x y then true else false.
Definition Rltb (x y : R) : bool := if Rlt_dec x y then true else false.
Definition Reqb (x y : R) : bool := if Req_dec_T x y then true else false.

(** ** The operations the distance function asks of a coordinate

    [distance_point_to_rect] is duck-typed: it compares coordinates with
    [<=] and [<], subtracts them and converts the difference with [float()]
    (or hands it to [math.hypot], which converts as well).  [main.py] calls
    it with integer pixels; the specification states its properties over
    reals. *)

Class PyNumber (A : Type) : Type := {
  py_le : A -> A -> bool;
  py_lt : A -> A -> bool;
  py_sub : A -> A -> A;
  py_float : A -> R
}.

#[export] Instance PyNumber_R : PyNumber R := {
  py_le := Rleb;
  py_lt := Rltb;
  py_sub := Rminus;
  py_float := fun x => x
}.

#[export] Instance PyNumber_Z : PyNumber Z := {
  py_le := Z.leb;
  py_lt := Z.ltb;
  py_sub := Z.sub;
  py_float := IZR
}.

(** ** What [float(distance)] accepts

    [classify_state] converts its first argument with [float()], which
    raises [TypeError] on [None]. *)

Class PyFloatable (A : Type) : Type :=
  to_float : A -> Exc R.

#[export] Instance PyFloatable_R : PyFloatable R := fun d => Ret d.
#[export] Instance PyFloatable_Z : PyFloatable Z := fun d => Ret (IZR d).
#[export] Instance PyFloatable_option (A : Type) `{PyFloatable A} :
  PyFloatable (option A) :=
  fun o => match o with
           | Some d => to_float d
           | None => Raise TypeError
           end.

(** ** state_logic.py *)

Module StateLogic.

(** [math.hypot(x, y)]. *)
Definition hypot (x y : R) : R := sqrt (x * x + y * y).

(** The builtin [min] on a list: [ValueError] on the empty list. *)
Definition py_min (l : list R) : Exc R :=
  match l with
  | [] => Raise ValueError
  | x :: tl => Ret (fold_left Rmin tl x)
  end.

Definition point (A : Type) : Type := (A * A)%type.
Definition rectangle (A : Type) : Type := (A * A * A * A)%type.

Definition distance_point_to_rect {A : Type} `{PyNumber A}
    (pt : point A) (rect : rectangle A) : Exc R :=
  let '(cx, cy) := pt in
  let '(rx1, ry1, rx2, ry2) := rect in
  if (py_le rx1 cx && py_le cx rx2) && (py_le ry1 cy && py_le cy ry2) then
    Ret 0%R
  else if py_le rx1 cx && py_le cx rx2 then
    if py_lt cy ry1 then Ret (py_float (py_sub ry1 cy))
    else Ret (py_float (py_sub cy ry2))
  else if py_le ry1 cy && py_le cy ry2 then
    if py_lt cx rx1 then Ret (py_float (py_sub rx1 cx))
    else Ret (py_float (py_sub cx rx2))
  else
    let corners := [(rx1, ry1); (rx1, ry2); (rx2, ry1); (rx2, ry2)] in
    let dists :=
      map (fun c : A * A =>
             let '(x, y) := c in
             hypot (py_float (py_sub cx x)) (py_float (py_sub cy y)))
          corners in
    py_min dists.

(** Integer pixels read as reals. *)
Definition point_IZR (pt : point Z) : point R := (IZR (fst pt), IZR (snd pt)).

Definition rect_IZR (rect : rectangle Z) : rectangle R :=
  let '(x1, y1, x2, y2) := rect in (IZR x1, IZR y1, IZR x2, IZR y2).

Inductive State : Type :=
| SAFE
| WARNING
| DANGER.

Definition classify_state {A : Type} `{PyFloatable A}
    (distance : A) (hand_present : bool) : Exc State :=
  if negb hand_present then Ret SAFE
  else
    d <- to_float distance ;;
    if Reqb d 0 || Rleb d 60 then Ret DANGER
    else if Rltb 60 d && Rleb d 120 then Ret WARNING
    else if Rltb 120 d then Ret SAFE
    else Ret SAFE.

(** The same control flow, recording which [return] statement of
    [classify_state] is reached (by its line in [state_logic.py]). *)
Inductive return_site : Type :=
| Line73
| Line79
| Line82
| Line85
| Line88.

Definition classify_site {A : Type} `{PyFloatable A}
    (distance : A) (hand_present : bool) : Exc return_site :=
  if negb hand_present then Ret Line73
  else
    d <- to_float distance ;;
    if Reqb d 0 || Rleb d 60 then Ret Line79
    else if Rltb 60 d && Rleb d 120 then Ret Line82
    else if Rltb 120 d then Ret Line85
    else Ret Line88.

Definition site_state (s : return_site) : State :=
  match s with
  | Line73 => SAFE
  | Line79 => DANGER
  | Line82 => WARNING
  | Line85 => SAFE
  | Line88 => SAFE
  end.

End StateLogic.

(** ** main.py *)

Module Main.
Import StateLogic.

Definition clamp (val vmin vmax : Z) : Z := Z.max vmin (Z.min vmax val).

Definition FRAME_W : Z := 640.
Definition FRAME_H : Z := 480.

(** [ord(c)] for a one-character string. *)
Definition ord (c : ascii) : Z := Z.of_N (N_of_ascii c).

(** The variables of [main] that live across iterations of the loop: the
    four rectangle coordinates and the tracker's [show_mask] flag. *)
Record loop_state : Type := {
  rect_x1 : Z;
  rect_y1 : Z;
  rect_x2 : Z;
  rect_y2 : Z;
  show_mask : bool
}.

Definition initial_state : loop_state :=
  {| rect_x1 := 220; rect_y1 := 140; rect_x2 := 420; rect_y2 := 340;
     show_mask := false |}.

(** [rect = (rect_x1, rect_y1, rect_x2, rect_y2)], rebuilt every frame. *)
Definition rect_of (s : loop_state) : rectangle Z :=
  (rect_x1 s, rect_y1 s, rect_x2 s, rect_y2 s).

(** "Compute distance and classify": the pair [(d, state)] of one frame.
    [d] is [None] when there is no centroid. *)
Definition frame_state (centroid : option (point Z)) (rect : rectangle Z)
  : Exc (option R * State) :=
  match centroid with
  | None => Ret (None, SAFE)
  | Some c =>
      d <- distance_point_to_rect c rect ;;
      state <- classify_state d true ;;
      Ret (Some d, state)
  end.

(** The W/A/S/D branch: shift one axis by [step], then clamp all four. *)
Definition move_rect (key : Z) (s : loop_state) : loop_state :=
  let step := 10%Z in
  let s1 :=
    if (key =? ord "w")%Z then
      {| rect_x1 := rect_x1 s; rect_y1 := rect_y1 s - step;
         rect_x2 := rect_x2 s; rect_y2 := rect_y2 s - step;
         show_mask := show_mask s |}
    else if (key =? ord "s")%Z then
      {| rect_x1 := rect_x1 s; rect_y1 := rect_y1 s + step;
         rect_x2 := rect_x2 s; rect_y2 := rect_y2 s + step;
         show_mask := show_mask s |}
    else if (key =? ord "a")%Z then
      {| rect_x1 := rect_x1 s - step; rect_y1 := rect_y1 s;
         rect_x2 := rect_x2 s - step; rect_y2 := rect_y2 s;
         show_mask := show_mask s |}
    else if (key =? ord "d")%Z then
      {| rect_x1 := rect_x1 s + step; rect_y1 := rect_y1 s;
         rect_x2 := rect_x2 s + step; rect_y2 := rect_y2 s;
         show_mask := show_mask s |}
    else s in
  {| rect_x1 := clamp (rect_x1 s1) 0 (FRAME_W - 1);
     rect_y1 := clamp (rect_y1 s1) 0 (FRAME_H - 1);
     rect_x2 := clamp (rect_x2 s1) 1 FRAME_W;
     rect_y2 := clamp (rect_y2 s1) 1 FRAME_H;
     show_mask := show_mask s1 |}.

(** "Handle keyboard input", on [key = cv2.waitKey(1) & 0xFF].  [None] is
    the [break] on 'q'. *)
Definition handle_key (key : Z) (s : loop_state) : option loop_state :=
  if (key =? ord "q")%Z then None
  else if (key =? ord "m")%Z then
    Some {| rect_x1 := rect_x1 s; rect_y1 := rect_y1 s;
            rect_x2 := rect_x2 s; rect_y2 := rect_y2 s;
            show_mask := negb (show_mask s) |}
  else if existsb (Z.eqb key) [ord "w"; ord "a"; ord "s"; ord "d"] then
    Some (move_rect key s)
  else Some s.

(** The loop over the keys read in successive frames; it stops at the first
    'q' and yields the variables as they are when it stops. *)
Fixpoint run_keys (keys : list Z) (s : loop_state) : loop_state :=
  match keys with
  | [] => s
  | k :: rest =>
      match handle_key k s with
      | None => s
      | Some s' => run_keys rest s'
      end
  end.

Definition is_wasd (key : Z) : Prop :=
  key = ord "w" \/ key = ord "a" \/ key = ord "s" \/ key = ord "d".

(** The structural invariant of the rectangle and the frame bounds. *)
Definition rect_valid (s : loop_state) : Prop :=
  (rect_x1 s < rect_x2 s /\ rect_y1 s < rect_y2 s)%Z.

Definition rect_in_frame (s : loop_state) : Prop :=
  (0 <= rect_x1 s <= FRAME_W - 1 /\ 1 <= rect_x2 s <= FRAME_W /\
   0 <= rect_y1 s <= FRAME_H - 1 /\ 1 <= rect_y2 s <= FRAME_H)%Z.

End Main.

(** ** The distance the specification refers to

    The nearest point of the rectangle is obtained by clamping each
    coordinate of the point into the rectangle's span; the reference
    distance is the Euclidean distance to it. *)

Module Reference.
Import StateLogic.

Definition clampR (v lo hi : R) : R := Rmax lo (Rmin hi v).

Definition nearest_point (pt : point R) (rect : rectangle R) : point R :=
  let '(px, py) := pt in
  let '(x1, y1, x2, y2) := rect in
  (clampR px x1 x2, clampR py y1 y2).

Definition euclid (p q : point R) : R :=
  hypot (fst p - fst q) (snd p - snd q).

Definition in_rect (q : point R) (rect : rectangle R) : Prop :=
  let '(qx, qy) := q in
  let '(x1, y1, x2, y2) := rect in
  (x1 <= qx <= x2 /\ y1 <= qy <= y2)%R.

Definition reference_distance (pt : point R) (rect : rectangle R) : R :=
  euclid pt (nearest_point pt rect).

Definition valid_rect (rect : rectangle R) : Prop :=
  let '(x1, y1, x2, y2) := rect in
  (x1 < x2 /\ y1 < y2)%R.

(** The four corner distances of step 4, and their minimum. *)
Definition corner_min (pt : point R) (rect : rectangle R) : R :=
  let '(x1, y1, x2, y2) := rect in
  Rmin (Rmin (Rmin (euclid pt (x1, y1)) (euclid pt (x1, y2)))
             (euclid pt (x2, y1)))
       (euclid pt (x2, y2)).

(** The gap of steps 2 and 3 along one axis: [lo - p] if [p < lo], else
    [p - hi]. *)
Definition axis_gap (p lo hi : R) : R :=
  if Rlt_dec p lo then lo - p else p - hi.

Definition inside_span (p lo hi : R) : Prop := (lo <= p <= hi)%R.
Definition outside_span (p lo hi : R) : Prop := (p < lo \/ hi < p)%R.

(** A distance as the specification types it: a non-negative real, or
    absent ([None]). *)
Definition valid_distance (distance : option R) : Prop :=
  match distance with
  | Some d => (0 <= d)%R
  | None => True
  end.

(** Reflections of a point and of a rectangle across the axes. *)
Definition flip_x_pt (pt : point R) : point R := (- fst pt, snd pt)%R.
Definition flip_y_pt (pt : point R) : point R := (fst pt, - snd pt)%R.

Definition flip_x_rect (rect : rectangle R) : rectangle R :=
  let '(x1, y1, x2, y2) := rect in (- x2, y1, - x1, y2)%R.
Definition flip_y_rect (rect : rectangle R) : rectangle R :=
  let '(x1, y1, x2, y2) := rect in (x1, - y2, x2, - y1)%R.

End Reference.

(** ** The uniform way to compute a frame's state

    Instead of bypassing the classifier when there is no centroid, call it
    on every frame with [hand_present = (centroid is not None)] and the
    distance when there is one. *)

Module Uniform.
Import StateLogic.

Definition is_not_None {A : Type} (o : option A) : bool :=
  match o with
  | Some _ => true
  | None => false
  end.

Definition frame_distance (centroid : option (point Z)) (rect : rectangle Z)
  : Exc (option R) :=
  match centroid with
  | None => Ret None
  | Some c => d <- distance_point_to_rect c rect ;; Ret (Some d)
  end.

Definition uniform_state (centroid : option (point Z)) (rect : rectangle Z)
  : Exc State :=
  d <- frame_distance centroid rect ;;
  classify_state d (is_not_None centroid).

End Uniform.

(** ** Further notions about the classifier

    Used to state how the two functions of [state_logic.py] behave on
    rectangles of zero width or height, under translation, and on the
    integer pixels [main.py] passes. *)

Module Notions.
Import StateLogic Main Reference.

(** Rectangles whose sides may have length zero. *)
Definition weak_rect (rect : rectangle R) : Prop :=
  let '(x1, y1, x2, y2) := rect in
  (x1 <= x2 /\ y1 <= y2)%R.

Definition translate_pt {A : Type} (add : A -> A -> A)
    (v : point A) (pt : point A) : point A :=
  (add (fst pt) (fst v), add (snd pt) (snd v)).

Definition translate_rect {A : Type} (add : A -> A -> A)
    (v : point A) (rect : rectangle A) : rectangle A :=
  let '(x1, y1, x2, y2) := rect in
  (add x1 (fst v), add y1 (snd v), add x2 (fst v), add y2 (snd v)).

(** How alarming a state is. *)
Definition severity (s : State) : nat :=
  match s with
  | SAFE => 0
  | WARNING => 1
  | DANGER => 2
  end.

(** The squared distance of an integer pixel to an integer rectangle,
    computed with [main.py]'s own [clamp], and the classification by
    squared thresholds. *)
Definition sq_distance_px (pt : point Z) (rect : rectangle Z) : Z :=
  let '(cx, cy) := pt in
  let '(x1, y1, x2, y2) := rect in
  let gx := (cx - clamp cx x1 x2)%Z in
  let gy := (cy - clamp cy y1 y2)%Z in
  (gx * gx + gy * gy)%Z.

Definition classify_sq (n : Z) : State :=
  if (n <=? 60 * 60)%Z then DANGER
  else if (n <=? 120 * 120)%Z then WARNING
  else SAFE.

End Notions.

(** ** The loop of [main], frame by frame *)

Module MainLoop.
Import StateLogic Main Notions.

(** [cv2.waitKey(1) & 0xFF]. *)
Definition key_of (raw : Z) : Z := Z.land raw 255.

(** What one iteration reads from outside: the flag of [cap.read()], the
    centroid [tracker.process_frame] reports, and the raw value of
    [cv2.waitKey(1)]. *)
Record frame_input : Type := {
  ret : bool;
  centroid : option (point Z);
  wait_key : Z
}.

(** What one iteration shows: the centroid and the rectangle it draws,
    the distance [d] it computed ([None] when there is no centroid; the
    overlay prints it rounded, or "N/A") and the state. *)
Record display : Type := {
  shown_centroid : option (point Z);
  shown_rect : rectangle Z;
  shown_distance : option R;
  shown_state : State
}.

(** The [while True] loop on a finite run of inputs: it stops on a failed
    read, on 'q', or when the inputs end, and yields the frames drawn and
    the variables at that moment.  An exception raised inside an
    iteration ends the run. *)
Fixpoint main_loop (inputs : list frame_input) (s : loop_state)
  : Exc (list display * loop_state) :=
  match inputs with
  | [] => Ret ([], s)
  | f :: rest =>
      if negb (ret f) then Ret ([], s)
      else
        r <- frame_state (centroid f) (rect_of s) ;;
        let out := {| shown_centroid := centroid f;
                      shown_rect := rect_of s;
                      shown_distance := fst r;
                      shown_state := snd r |} in
        match handle_key (key_of (wait_key f)) s with
        | None => Ret ([out], s)
        | Some s' =>
            r' <- main_loop rest s' ;;
            Ret (out :: fst r', snd r')
        end
  end.

(** The keys of the frames that are read, up to the first failed read. *)
Fixpoint keys_read (inputs : list frame_input) : list Z :=
  match inputs with
  | [] => []
  | f :: rest =>
      if negb (ret f) then [] else key_of (wait_key f) :: keys_read rest
  end.

Definition rect_width (s : loop_state) : Z := (rect_x2 s - rect_x1 s)%Z.
Definition rect_height (s : loop_state) : Z := (rect_y2 s - rect_y1 s)%Z.

Definition rect_ok (rect : rectangle Z) : Prop :=
  let '(x1, y1, x2, y2) := rect in
  (0 <= x1 /\ x1 < x2 /\ x2 <= FRAME_W /\ 0 <= y1 /\ y1 < y2 /\ y2 <= FRAME_H)%Z.

(** A frame drawn consistently: a proper rectangle inside the 640x480
    frame; without a centroid no distance and SAFE; with one, a distance
    that is not negative and the state decided by the squared pixel
    distance. *)
Definition display_ok (o : display) : Prop :=
  rect_ok (shown_rect o) /\
  match shown_centroid o with
  | None => shown_distance o = None /\ shown_state o = SAFE
  | Some c =>
      exists d : R,
        shown_distance o = Some d /\ (0 <= d)%R /\
        shown_state o = classify_sq (sq_distance_px c (shown_rect o))
  end.


End MainLoop.

(** ** hand_tracker.py

    [HandTracker.process_frame] is a pipeline of OpenCV calls followed by
    decisions of its own.  The OpenCV functions are not part of this
    repository; they are taken as they are called ([contourArea],
    [arcLength], [approxPolyDP], [boundingRect], [moments]), and the
    method is embedded in its two parts that are the repository's own:
    the suppression of two regions of the mask, and everything from the
    list of contours on (the frame returned for drawing is left out). *)

Module HandTracker.
Import StateLogic.

(** [int(x)] on a float: truncation toward zero. *)
Definition py_int (x : R) : Z :=
  if Rleb 0 x then Int_part x else (- Int_part (- x))%Z.

(** [max(l, key=key)] walks the list and replaces the element it holds
    only by one with a strictly larger key; [ValueError] on the empty
    list. *)
Definition keep_larger {A : Type} (key : A -> R) (best y : A) : A :=
  if Rltb (key best) (key y) then y else best.

Definition py_max_key {A : Type} (key : A -> R) (l : list A) : Exc A :=
  match l with
  | [] => Raise ValueError
  | x :: tl => Ret (fold_left (keep_larger key) tl x)
  end.

(** *** The mask, as rows of pixels *)

Definition image : Type := list (list Z).

Definition pixel (img : image) (r c : nat) : option Z :=
  match nth_error img r with
  | Some row => nth_error row c
  | None => None
  end.

Definition zero_row (row : list Z) : list Z := map (fun _ => 0%Z) row.

(** [mask[:k, :] = 0]. *)
Definition zero_rows (k : nat) (mask : image) : image :=
  map zero_row (firstn k mask) ++ skipn k mask.

(** [mask[:, :k] = 0]. *)
Definition zero_cols (k : nat) (mask : image) : image :=
  map (fun row => zero_row (firstn k row) ++ skipn k row) mask.

(** "ignore top half", then "ignore left side". *)
Definition suppress_regions (frame_width frame_height : nat) (mask : image)
  : image :=
  zero_cols (frame_width / 3) (zero_rows (frame_height / 2) mask).

(** *** From the contours on *)

(** The entries of [cv2.moments] the method reads. *)
Record moments : Type := {
  m00 : R;
  m10 : R;
  m01 : R
}.

Record detection (contour : Type) : Type := {
  det_centroid : option (point Z);
  det_contour : option contour;
  det_bbox : option (Z * Z * Z * Z)
}.

Arguments det_centroid {contour} d.
Arguments det_contour {contour} d.
Arguments det_bbox {contour} d.

Definition not_found {contour : Type} : detection contour :=
  {| det_centroid := None; det_contour := None; det_bbox := None |}.

Section ProcessFrame.

Variable contour : Type.
Variable contourArea : contour -> R.
Variable arcLength : contour -> R.
Variable approxPolyDP : contour -> R -> contour.
Variable boundingRect : contour -> Z * Z * Z * Z.
Variable cv_moments : contour -> moments.

(** [self.min_contour_area]. *)
Variable min_contour_area : R.

Definition process_frame (contours : list contour) : Exc (detection contour) :=
  match contours with
  | [] => Ret not_found
  | _ :: _ =>
      largest_contour <- py_max_key contourArea contours ;;
      let area := contourArea largest_contour in
      if Rltb area min_contour_area then Ret not_found
      else
        let epsilon := (0.01 * arcLength largest_contour)%R in
        let largest_contour := approxPolyDP largest_contour epsilon in
        let bbox := boundingRect largest_contour in
        let M := cv_moments largest_contour in
        if Reqb (m00 M) 0 then
          Ret {| det_centroid := None;
                 det_contour := Some largest_contour;
                 det_bbox := Some bbox |}
        else
          let cx := py_int (m10 M / m00 M) in
          let cy := py_int (m01 M / m00 M) in
          Ret {| det_centroid := Some (cx, cy);
                 det_contour := Some largest_contour;
                 det_bbox := Some bbox |}
  end.

End ProcessFrame.

Arguments process_frame {contour} contourArea arcLength approxPolyDP
  boundingRect cv_moments min_contour_area contours.

End HandTracker.

(** ** state_logic.py on binary64 values

    The distance function once more, on the doubles it receives when it is
    called with floats: comparisons, subtraction and the constant [0.0]
    are those of IEEE 754 binary64 (Rocq's primitive floats).
    [math.hypot] belongs to the C library behind Python and is taken as
    it is called.  This embedding serves to exhibit what rounding does;
    [value] reads a finite double as the real number it denotes. *)

Module Binary64.
Import PrimFloat.

Definition value (f : float) : option R :=
  match FloatOps.Prim2SF f with
  | SpecFloat.S754_zero _ => Some 0%R
  | SpecFloat.S754_finite s m e =>
      Some (IZR (if s then Z.neg m else Z.pos m) * powerRZ 2 e)%R
  | SpecFloat.S754_infinity _ => None
  | SpecFloat.S754_nan => None
  end.

(** The builtin [min] on a list of floats: it walks the list and replaces
    the element it holds only by a strictly smaller one. *)
Definition keep_smaller (best y : float) : float :=
  if ltb y best then y else best.

Definition py_min (l : list float) : Exc float :=
  match l with
  | [] => Raise ValueError
  | x :: tl => Ret (fold_left keep_smaller tl x)
  end.

Section MathHypot.

Variable math_hypot : float -> float -> float.

Definition distance_point_to_rect
    (pt : float * float) (rect : float * float * float * float) : Exc float :=
  let '(cx, cy) := pt in
  let '(rx1, ry1, rx2, ry2) := rect in
  if (leb rx1 cx && leb cx rx2) && (leb ry1 cy && leb cy ry2) then
    Ret 0%float
  else if leb rx1 cx && leb cx rx2 then
    if ltb cy ry1 then Ret (sub ry1 cy)
    else Ret (sub cy ry2)
  else if leb ry1 cy && leb cy ry2 then
    if ltb cx rx1 then Ret (sub rx1 cx)
    else Ret (sub cx rx2)
  else
    let corners := [(rx1, ry1); (rx1, ry2); (rx2, ry1); (rx2, ry2)] in
    let dists :=
      map (fun c : float * float =>
             let '(x, y) := c in math_hypot (sub cx x) (sub cy y))
          corners in
    py_min dists.

End MathHypot.

End Binary64.

(** ** state_logic.py on integer pixels

    The distance function as [main.py] calls it, with Python integers:
    comparisons and differences are exact, [float()] of a difference is
    exact for the magnitudes of [pixel_range], and [math.hypot], again
    taken as it is called, returns a double, read here as the real it
    denotes. *)

Module Rounded.
Import StateLogic.

Section MathHypot.

Variable math_hypot : R -> R -> R.

Definition distance_point_to_rect (pt : point Z) (rect : rectangle Z)
  : Exc R :=
  let '(cx, cy) := pt in
  let '(rx1, ry1, rx2, ry2) := rect in
  if ((rx1 <=? cx) && (cx <=? rx2) && ((ry1 <=? cy) && (cy <=? ry2)))%Z then
    Ret 0%R
  else if ((rx1 <=? cx) && (cx <=? rx2))%Z then
    if (cy <? ry1)%Z then Ret (IZR (ry1 - cy))
    else Ret (IZR (cy - ry2))
  else if ((ry1 <=? cy) && (cy <=? ry2))%Z then
    if (cx <? rx1)%Z then Ret (IZR (rx1 - cx))
    else Ret (IZR (cx - rx2))
  else
    let corners := [(rx1, ry1); (rx1, ry2); (rx2, ry1); (rx2, ry2)] in
    let dists :=
      map (fun c : Z * Z =>
             let '(x, y) := c in math_hypot (IZR (cx - x)) (IZR (cy - y)))
          corners in
    py_min dists.

End MathHypot.

(** Coordinates whose differences a double holds exactly. *)
Definition exact_coord (n : Z) : Prop := (Z.abs n <= 2 ^ 52)%Z.

Definition pixel_range (pt : point Z) (rect : rectangle Z) : Prop :=
  let '(cx, cy) := pt in
  let '(x1, y1, x2, y2) := rect in
  exact_coord cx /\ exact_coord cy /\ exact_coord x1 /\ exact_coord y1 /\
  exact_coord x2 /\ exact_coord y2.

(** [math.hypot] within relative error [eps] of the Euclidean norm, on
    integer arguments a double holds exactly. *)
Definition hypot_accurate (eps : R) (math_hypot : R -> R -> R) : Prop :=
  forall a b : Z,
    (Z.abs a <= 2 ^ 53)%Z -> (Z.abs b <= 2 ^ 53)%Z ->
    (Rabs (math_hypot (IZR a) (IZR b) - sqrt (IZR (a * a + b * b)))
     <= eps * sqrt (IZR (a * a + b * b)))%R.

Definition valid_px (rect : rectangle Z) : Prop :=
  let '(x1, y1, x2, y2) := rect in (x1 < x2 /\ y1 < y2)%Z.

Definition weak_px (rect : rectangle Z) : Prop :=
  let '(x1, y1, x2, y2) := rect in (x1 <= x2 /\ y1 <= y2)%Z.

Definition in_span (p lo hi : Z) : Prop := (lo <= p <= hi)%Z.
Definition off_span (p lo hi : Z) : Prop := (p < lo \/ hi < p)%Z.

(** The gap of steps 2 and 3, in integers. *)
Definition axis_gap_px (p lo hi : Z) : Z :=
  if (p <? lo)%Z then (lo - p)%Z else (p - hi)%Z.

(** The squared Euclidean distances to the four corners, and the least. *)
Definition sq_corner (pt corner : point Z) : Z :=
  ((fst pt - fst corner) * (fst pt - fst corner)
   + (snd pt - snd corner) * (snd pt - snd corner))%Z.

Definition sq_corner_min (pt : point Z) (rect : rectangle Z) : Z :=
  let '(x1, y1, x2, y2) := rect in
  Z.min (Z.min (Z.min (sq_corner pt (x1, y1)) (sq_corner pt (x1, y2)))
               (sq_corner pt (x2, y1)))
        (sq_corner pt (x2, y2)).

End Rounded.

(** * Properties *)

Local Open Scope R_scope.

(** ** Boolean comparisons against the order on reals *)

Lemma Rleb_true (x y : R) : Rleb x y = true <-> x <= y.
Proof. unfold Rleb. destruct (Rle_dec x y); split; intros; congruence || lra. Qed.

Lemma Rleb_false (x y : R) : Rleb x y = false <-> y < x.
Proof. unfold Rleb. destruct (Rle_dec x y); split; intros; congruence || lra. Qed.

Lemma Rltb_true (x y : R) : Rltb x y = true <-> x < y.
Proof. unfold Rltb. destruct (Rlt_dec x y); split; intros; congruence || lra. Qed.

Lemma Rltb_false (x y : R) : Rltb x y = false <-> y <= x.
Proof. unfold Rltb. destruct (Rlt_dec x y); split; intros; congruence || lra. Qed.

Lemma Reqb_true (x y : R) : Reqb x y = true <-> x = y.
Proof. unfold Reqb. destruct (Req_dec_T x y); split; intros; congruence. Qed.

Lemma Reqb_false (x y : R) : Reqb x y = false <-> x <> y.
Proof. unfold Reqb. destruct (Req_dec_T x y); split; intros; congruence. Qed.

(** [cmp_cases] splits on every comparison left in the goal and turns each
    outcome into a hypothesis on the order. *)
Ltac cmp_case b :=
  let E := fresh "E" in
  destruct b eqn:E;
  [ first [ apply Rleb_true in E | apply Rltb_true in E | apply Reqb_true in E ]
  | first [ apply Rleb_false in E | apply Rltb_false in E | apply Reqb_false in E ] ].

Ltac cmp_cases :=
  repeat match goal with
         | |- context [Rleb ?x ?y] => cmp_case (Rleb x y)
         | |- context [Rltb ?x ?y] => cmp_case (Rltb x y)
         | |- context [Reqb ?x ?y] => cmp_case (Reqb x y)
         end; simpl.

(** ** [math.hypot] and [min] *)

Import StateLogic.

Lemma hypot_nonneg (x y : R) : 0 <= hypot x y.
Proof. apply sqrt_pos. Qed.

Lemma hypot_0_r (x : R) : hypot x 0 = Rabs x.
Proof.
  unfold hypot. replace (x * x + 0 * 0) with (Rsqr x) by (unfold Rsqr; ring).
  apply sqrt_Rsqr_abs.
Qed.

Lemma hypot_0_l (y : R) : hypot 0 y = Rabs y.
Proof.
  unfold hypot. replace (0 * 0 + y * y) with (Rsqr y) by (unfold Rsqr; ring).
  apply sqrt_Rsqr_abs.
Qed.

Lemma hypot_opp_l (x y : R) : hypot (- x) y = hypot x y.
Proof. unfold hypot. f_equal. ring. Qed.

Lemma hypot_opp_r (x y : R) : hypot x (- y) = hypot x y.
Proof. unfold hypot. f_equal. ring. Qed.

Lemma hypot_le (a b c d : R) :
  Rabs a <= Rabs c -> Rabs b <= Rabs d -> hypot a b <= hypot c d.
Proof.
  intros Ha Hb. unfold hypot. apply sqrt_le_1_alt.
  apply Rsqr_le_abs_1 in Ha. apply Rsqr_le_abs_1 in Hb.
  unfold Rsqr in *. lra.
Qed.

Lemma hypot_eq_0 (x y : R) : hypot x y = 0 -> x = 0 /\ y = 0.
Proof.
  unfold hypot. intros E. apply sqrt_eq_0 in E; [| nra].
  split; nra.
Qed.

(** ** The reference distance *)

Import Reference.

Lemma clampR_inside (v lo hi : R) : lo <= v <= hi -> clampR v lo hi = v.
Proof.
  intros [Hl Hh]. unfold clampR.
  rewrite (Rmin_right hi v) by lra. apply Rmax_right. lra.
Qed.

Lemma clampR_below (v lo hi : R) : v < lo -> lo <= hi -> clampR v lo hi = lo.
Proof.
  intros Hv Hr. unfold clampR.
  rewrite (Rmin_right hi v) by lra. apply Rmax_left. lra.
Qed.

Lemma clampR_above (v lo hi : R) : hi < v -> lo <= hi -> clampR v lo hi = hi.
Proof.
  intros Hv Hr. unfold clampR.
  rewrite (Rmin_left hi v) by lra. apply Rmax_right. lra.
Qed.

Lemma clampR_bounds (v lo hi : R) : lo <= hi -> lo <= clampR v lo hi <= hi.
Proof.
  intros Hr. unfold clampR. split.
  - apply Rmax_l.
  - apply Rmax_lub; [lra | apply Rmin_l].
Qed.

(** Clamping moves a coordinate no farther than any point of the span is. *)
Lemma clampR_nearest (v lo hi q : R) :
  lo <= q <= hi -> Rabs (v - clampR v lo hi) <= Rabs (v - q).
Proof.
  intros [Hl Hh].
  destruct (Rlt_dec v lo) as [Hlo | Hlo].
  - rewrite clampR_below by lra.
    rewrite !Rabs_left1 by lra. lra.
  - destruct (Rlt_dec hi v) as [Hhi | Hhi].
    + rewrite clampR_above by lra.
      rewrite !Rabs_right by lra. lra.
    + rewrite clampR_inside by lra.
      replace (v - v) with 0 by ring. rewrite Rabs_R0. apply Rabs_pos.
Qed.

Lemma clampR_opp (v lo hi : R) :
  lo <= hi -> clampR (- v) (- hi) (- lo) = - clampR v lo hi.
Proof.
  intros Hr.
  destruct (Rlt_dec v lo) as [Hlo | Hlo].
  - rewrite (@clampR_below v) by lra. rewrite clampR_above by lra. reflexivity.
  - destruct (Rlt_dec hi v) as [Hhi | Hhi].
    + rewrite (@clampR_above v) by lra. rewrite clampR_below by lra. reflexivity.
    + rewrite (@clampR_inside v) by lra. rewrite clampR_inside by lra. reflexivity.
Qed.

Lemma nearest_point_in_rect (pt : point R) (rect : rectangle R) :
  valid_rect rect -> in_rect (nearest_point pt rect) rect.
Proof.
  destruct pt as [px py]. destruct rect as [[[x1 y1] x2] y2].
  simpl. intros [Hx Hy].
  split; apply clampR_bounds; lra.
Qed.

Lemma reference_distance_least (pt q : point R) (rect : rectangle R) :
  in_rect q rect -> reference_distance pt rect <= euclid pt q.
Proof.
  destruct pt as [px py]. destruct q as [qx qy].
  destruct rect as [[[x1 y1] x2] y2].
  simpl. intros [Hx Hy].
  unfold reference_distance, euclid. simpl.
  apply hypot_le; apply clampR_nearest; assumption.
Qed.

Lemma reference_distance_zero (pt : point R) (rect : rectangle R) :
  valid_rect rect -> (reference_distance pt rect = 0 <-> in_rect pt rect).
Proof.
  destruct pt as [px py]. destruct rect as [[[x1 y1] x2] y2].
  simpl. intros [Hx Hy]. unfold reference_distance, euclid. simpl. split.
  - intros E. apply hypot_eq_0 in E. destruct E as [Ex Ey].
    assert (Bx := @clampR_bounds px x1 x2 (Rlt_le _ _ Hx)).
    assert (By := @clampR_bounds py y1 y2 (Rlt_le _ _ Hy)).
    lra.
  - intros [Ix Iy]. rewrite !clampR_inside by assumption.
    replace (px - px) with 0 by ring. rewrite hypot_0_l.
    replace (py - py) with 0 by ring. apply Rabs_R0.
Qed.

(** ** The four branches against the reference distance *)

Ltac abs_lra :=
  unfold Rabs;
  repeat match goal with
         | |- context [Rcase_abs ?a] => destruct (Rcase_abs a)
         end; lra.

Ltac clamp_resolve :=
  repeat first [ rewrite clampR_inside by lra
               | rewrite clampR_below by lra
               | rewrite clampR_above by lra ].

Lemma Rmin4_eq (a b c d m : R) :
  m = a \/ m = b \/ m = c \/ m = d ->
  m <= a -> m <= b -> m <= c -> m <= d ->
  Rmin (Rmin (Rmin a b) c) d = m.
Proof.
  intros Hm Ha Hb Hc Hd. unfold Rmin.
  destruct (Rle_dec a b); destruct (Rle_dec _ c); destruct (Rle_dec _ d); lra.
Qed.

Lemma distance_is_reference (pt : point R) (rect : rectangle R) :
  valid_rect rect ->
  distance_point_to_rect pt rect = Ret (reference_distance pt rect).
Proof.
  destruct pt as [px py]. destruct rect as [[[x1 y1] x2] y2].
  simpl. intros [Hx Hy].
  unfold reference_distance, euclid, nearest_point; simpl.
  cmp_cases; try lra; f_equal; clamp_resolve;
    try (replace (px - px) with 0 by ring; rewrite hypot_0_l; abs_lra);
    try (replace (py - py) with 0 by ring; rewrite hypot_0_r; abs_lra);
    (apply Rmin4_eq; [ tauto | apply hypot_le; abs_lra .. ]).
Qed.

(** C6.  Reflecting the point and the rectangle together across either
    axis leaves the distance unchanged. *)
Theorem distance_reflection (pt : point R) (rect : rectangle R) :
  valid_rect rect ->
  distance_point_to_rect (flip_x_pt pt) (flip_x_rect rect)
  = distance_point_to_rect pt rect /\
  distance_point_to_rect (flip_y_pt pt) (flip_y_rect rect)
  = distance_point_to_rect pt rect.
Proof.
  destruct pt as [px py]. destruct rect as [[[x1 y1] x2] y2].
  intros Hv. assert (Hv' := Hv). simpl in Hv'. destruct Hv' as [Hx Hy].
  rewrite (distance_is_reference (px, py) (x1, y1, x2, y2) Hv).
  split.
  - rewrite distance_is_reference by (simpl; lra).
    f_equal. unfold reference_distance, euclid; simpl.
    rewrite clampR_opp by lra.
    replace (- px - - clampR px x1 x2) with (- (px - clampR px x1 x2)) by ring.
    apply hypot_opp_l.
  - rewrite distance_is_reference by (simpl; lra).
    f_equal. unfold reference_distance, euclid; simpl.
    rewrite clampR_opp by lra.
    replace (- py - - clampR py y1 y2) with (- (py - clampR py y1 y2)) by ring.
    apply hypot_opp_r.
Qed.

Lemma distance_reflection_witness :
  distance_point_to_rect (flip_x_pt (150, 50)) (flip_x_rect (0, 0, 100, 100))
  = distance_point_to_rect (150, 50) (0, 0, 100, 100) /\
  distance_point_to_rect (flip_y_pt (150, 50)) (flip_y_rect (0, 0, 100, 100))
  = distance_point_to_rect (150, 50) (0, 0, 100, 100).
Proof.
  apply (@distance_reflection (150, 50) (0, 0, 100, 100)).
  simpl. lra.
Defined.

(** ** Integer pixels

    On integer coordinates the function takes the same branches and
    returns the same value as on the corresponding reals. *)

Lemma Rleb_IZR (a b : Z) : Rleb (IZR a) (IZR b) = (a <=? b)%Z.
Proof.
  destruct (Z.leb_spec a b) as [H | H].
  - apply Rleb_true. apply IZR_le. assumption.
  - apply Rleb_false. apply IZR_lt. assumption.
Qed.

Lemma Rltb_IZR (a b : Z) : Rltb (IZR a) (IZR b) = (a <? b)%Z.
Proof.
  destruct (Z.ltb_spec a b) as [H | H].
  - apply Rltb_true. apply IZR_lt. assumption.
  - apply Rltb_false. apply IZR_le. assumption.
Qed.

Lemma distance_pixels (pt : point Z) (rect : rectangle Z) :
  distance_point_to_rect pt rect
  = distance_point_to_rect (point_IZR pt) (rect_IZR rect).
Proof.
  destruct pt as [cx cy]. destruct rect as [[[x1 y1] x2] y2].
  unfold distance_point_to_rect, point_IZR, rect_IZR. simpl.
  rewrite !Rleb_IZR, !Rltb_IZR, !minus_IZR. reflexivity.
Qed.

(** ** The classifier *)

Lemma classify_state_site {A : Type} `{PyFloatable A}
    (distance : A) (hand_present : bool) :
  classify_state distance hand_present
  = exc_map site_state (classify_site distance hand_present).
Proof.
  unfold classify_state, classify_site, exc_map.
  destruct hand_present; simpl; [| reflexivity ].
  destruct (to_float distance) as [d | e]; simpl; [| reflexivity ].
  destruct (Reqb d 0 || Rleb d 60); [ reflexivity |].
  destruct (Rltb 60 d && Rleb d 120); [ reflexivity |].
  destruct (Rltb 120 d); reflexivity.
Qed.

(** C2.  With the hand present and a non-negative real distance [d], the
    result is DANGER exactly when [d <= 60], WARNING exactly when
    [60 < d <= 120] and SAFE exactly when [120 < d]; one of the three is
    always returned. *)
Theorem classify_thresholds (d : R) :
  0 <= d ->
  (classify_state d true = Ret DANGER <-> d <= 60) /\
  (classify_state d true = Ret WARNING <-> 60 < d <= 120) /\
  (classify_state d true = Ret SAFE <-> 120 < d) /\
  (classify_state d true = Ret DANGER \/
   classify_state d true = Ret WARNING \/
   classify_state d true = Ret SAFE).
Proof.
  intros Hd. unfold classify_state, to_float, PyFloatable_R. simpl.
  cmp_cases; repeat split; intros; try lra; try discriminate; tauto.
Qed.

Lemma classify_thresholds_witness :
  (classify_state 60 true = Ret DANGER <-> 60 <= 60) /\
  (classify_state 60 true = Ret WARNING <-> 60 < 60 <= 120) /\
  (classify_state 60 true = Ret SAFE <-> 120 < 60) /\
  (classify_state 60 true = Ret DANGER \/
   classify_state 60 true = Ret WARNING \/
   classify_state 60 true = Ret SAFE).
Proof.
  apply (classify_thresholds 60). lra.
Defined.

(** C3.  Without a hand the result is SAFE whatever is passed as the
    distance: a real, an integer, [None], or a value of any other type;
    the argument is not even converted. *)
Theorem classify_absent_hand {A : Type} `{PyFloatable A} (distance : A) :
  classify_state distance false = Ret SAFE.
Proof. reflexivity. Qed.

(** ** Totality *)

Lemma distance_returns {A : Type} `{PyNumber A}
    (pt : point A) (rect : rectangle A) :
  returns (distance_point_to_rect pt rect).
Proof.
  destruct pt as [cx cy]. destruct rect as [[[x1 y1] x2] y2].
  unfold returns, distance_point_to_rect.
  repeat match goal with
         | |- context [if ?b then _ else _] => destruct b
         end; eexists; simpl; reflexivity.
Qed.

Lemma distance_nonneg (pt : point R) (rect : rectangle R) (d : R) :
  valid_rect rect -> distance_point_to_rect pt rect = Ret d -> 0 <= d.
Proof.
  intros Hv E. rewrite distance_is_reference in E by assumption.
  injection E as <-. apply hypot_nonneg.
Qed.

(** C7, as stated, fails: an absent distance is a valid distance, yet with
    [hand_present = True] the conversion [float(None)] raises. *)
Lemma classify_absent_distance_raises :
  valid_distance None /\
  classify_state (@None R) true = Raise TypeError /\
  ~ returns (classify_state (@None R) true).
Proof.
  split; [ exact I |]. split; [ reflexivity |].
  intros [s Hs]. discriminate Hs.
Qed.

(** C7, amended.  With the rectangle invariant honoured the distance
    function returns (a non-negative real); the classifier returns
    whenever the distance is a non-negative real, and also when it is
    absent provided [hand_present] is false; and for a real distance with
    the hand present the return reached is one of the three threshold
    branches, never the trailing fallback. *)
Theorem total_on_valid_input
    (pt : point R) (rect : rectangle R)
    (distance : option R) (hand_present : bool) :
  valid_rect rect ->
  valid_distance distance ->
  (distance = None -> hand_present = false) ->
  (exists d : R, distance_point_to_rect pt rect = Ret d /\ 0 <= d) /\
  returns (classify_state distance hand_present) /\
  (forall d : R, distance = Some d ->
     exists site : return_site,
       classify_site distance true = Ret site /\
       classify_state distance true = Ret (site_state site) /\
       (site = Line79 \/ site = Line82 \/ site = Line85) /\
       site <> Line88).
Proof.
  intros Hv Hd Hnone. split; [| split ].
  - destruct (distance_returns pt rect) as [d E].
    exists d. split; [ assumption | eapply distance_nonneg; eassumption ].
  - destruct distance as [d |].
    + unfold returns, classify_state. destruct hand_present; simpl.
      * unfold to_float, PyFloatable_R. simpl.
        cmp_cases; eexists; reflexivity.
      * eexists; reflexivity.
    + rewrite (Hnone eq_refl). eexists; reflexivity.
  - intros d ->. rewrite classify_state_site.
    unfold classify_site, exc_map. simpl.
    unfold to_float, PyFloatable_R. simpl.
    cmp_cases; eexists; (split; [ reflexivity |]);
      (split; [ reflexivity |]); (split; [ tauto | discriminate ]) || lra.
Qed.

Lemma total_on_valid_input_witness :
  (exists d : R,
     distance_point_to_rect (110, 110) (0, 0, 100, 100) = Ret d /\ 0 <= d) /\
  returns (classify_state (Some 60) true) /\
  (forall d : R, Some 60 = Some d ->
     exists site : return_site,
       classify_site (Some 60) true = Ret site /\
       classify_state (Some 60) true = Ret (site_state site) /\
       (site = Line79 \/ site = Line82 \/ site = Line85) /\
       site <> Line88).
Proof.
  apply (total_on_valid_input (110, 110) (0, 0, 100, 100) (Some 60) true).
  - simpl. lra.
  - simpl. lra.
  - intros E. discriminate E.
Defined.

(** ** The rectangle under the W/A/S/D keys *)

Import Main.

Lemma initial_state_ok : rect_valid initial_state /\ rect_in_frame initial_state.
Proof. unfold rect_valid, rect_in_frame, FRAME_W, FRAME_H. simpl. lia. Qed.

Lemma move_rect_ok (key : Z) (s : loop_state) :
  rect_valid s /\ rect_in_frame s ->
  rect_valid (move_rect key s) /\ rect_in_frame (move_rect key s).
Proof.
  unfold rect_valid, rect_in_frame, move_rect, clamp, FRAME_W, FRAME_H.
  destruct s as [x1 y1 x2 y2 m]. simpl. intros H.
  destruct (key =? ord "w")%Z; [ simpl; lia |].
  destruct (key =? ord "s")%Z; [ simpl; lia |].
  destruct (key =? ord "a")%Z; [ simpl; lia |].
  destruct (key =? ord "d")%Z; simpl; lia.
Qed.

Lemma handle_key_ok (key : Z) (s s' : loop_state) :
  handle_key key s = Some s' ->
  rect_valid s /\ rect_in_frame s ->
  rect_valid s' /\ rect_in_frame s'.
Proof.
  unfold handle_key. intros E H.
  destruct (key =? ord "q")%Z; [ discriminate |].
  destruct (key =? ord "m")%Z.
  - injection E as <-. exact H.
  - destruct (existsb _ _); injection E as <-.
    + apply move_rect_ok. exact H.
    + exact H.
Qed.

Lemma run_keys_ok (keys : list Z) (s : loop_state) :
  rect_valid s /\ rect_in_frame s ->
  rect_valid (run_keys keys s) /\ rect_in_frame (run_keys keys s).
Proof.
  revert s. induction keys as [| k rest IH]; intros s H; simpl.
  - exact H.
  - destruct (handle_key k s) as [s' |] eqn:E.
    + apply IH. eapply handle_key_ok; eassumption.
    + exact H.
Qed.

Lemma handle_key_wasd (key : Z) (s : loop_state) :
  is_wasd key -> handle_key key s = Some (move_rect key s).
Proof.
  intros [-> | [-> | [-> | ->]]]; reflexivity.
Qed.

(** A sequence of W/A/S/D presses moves the rectangle once per key. *)
Lemma run_keys_wasd (keys : list Z) (s : loop_state) :
  Forall is_wasd keys ->
  run_keys keys s = fold_left (fun st k => move_rect k st) keys s.
Proof.
  intros Hk. revert s. induction Hk as [| k rest Hk _ IH]; intros s; simpl.
  - reflexivity.
  - rewrite handle_key_wasd by assumption. apply IH.
Qed.

(** C8.  From the initial rectangle (220, 140, 420, 340), after any finite
    sequence of W/A/S/D presses the rectangle still has [x1 < x2] and
    [y1 < y2] and lies within the 640x480 frame. *)
Theorem rect_invariant_wasd (keys : list Z) :
  Forall is_wasd keys ->
  run_keys keys initial_state
  = fold_left (fun st k => move_rect k st) keys initial_state /\
  rect_valid (run_keys keys initial_state) /\
  rect_in_frame (run_keys keys initial_state).
Proof.
  intros Hk. split.
  - apply run_keys_wasd. assumption.
  - apply run_keys_ok. apply initial_state_ok.
Qed.

Lemma rect_invariant_wasd_witness :
  run_keys [ord "a"; ord "w"; ord "d"; ord "s"] initial_state
  = fold_left (fun st k => move_rect k st)
      [ord "a"; ord "w"; ord "d"; ord "s"] initial_state /\
  rect_valid (run_keys [ord "a"; ord "w"; ord "d"; ord "s"] initial_state) /\
  rect_in_frame (run_keys [ord "a"; ord "w"; ord "d"; ord "s"] initial_state).
Proof.
  apply (rect_invariant_wasd [ord "a"; ord "w"; ord "d"; ord "s"]).
  repeat constructor; unfold is_wasd; tauto.
Defined.

(** ** The state of a frame *)

Import Uniform.

Lemma classify_real_returns (d : R) (hand_present : bool) :
  returns (classify_state d hand_present).
Proof.
  unfold returns, classify_state. destruct hand_present; simpl.
  - unfold to_float, PyFloatable_R. simpl. cmp_cases; eexists; reflexivity.
  - eexists; reflexivity.
Qed.

Lemma frame_state_returns (centroid : option (point Z)) (rect : rectangle Z) :
  returns (frame_state centroid rect).
Proof.
  destruct centroid as [c |]; simpl.
  - destruct (distance_returns c rect) as [d ->]. simpl.
    destruct (classify_real_returns d true) as [s ->]. simpl.
    eexists; reflexivity.
  - eexists; reflexivity.
Qed.

(** C10.  The state [main] computes for a frame is what the classifier
    gives on the distance with [hand_present = True] when there is a
    centroid, what it gives on any distance with [hand_present = False]
    when there is none, and so what the uniform call
    [classify_state(d, centroid is not None)] gives on every frame. *)
Theorem frame_state_refines_classifier :
  (forall (c : point Z) (rect : rectangle Z),
     exc_map snd (frame_state (Some c) rect)
     = (d <- distance_point_to_rect c rect ;; classify_state d true)) /\
  (forall (rect : rectangle Z) (A : Type) (F : PyFloatable A) (d : A),
     exc_map snd (frame_state None rect) = classify_state d false) /\
  (forall (centroid : option (point Z)) (rect : rectangle Z),
     exc_map snd (frame_state centroid rect) = uniform_state centroid rect).
Proof.
  split; [| split ].
  - intros c rect. unfold exc_map, frame_state.
    destruct (distance_point_to_rect c rect) as [d | e]; simpl;
      [| reflexivity ].
    destruct (classify_state d true); reflexivity.
  - intros rect A F d. reflexivity.
  - intros [c |] rect; unfold exc_map, frame_state, uniform_state; simpl.
    + destruct (distance_point_to_rect c rect) as [d | e]; simpl;
        [| reflexivity ].
      change (classify_state (Some d) true) with (classify_state d true).
      destruct (classify_state d true); reflexivity.
    + reflexivity.
Qed.

(** ** The examples of the specification, evaluated *)

Ltac classify_eval :=
  unfold classify_state, to_float, PyFloatable_R; simpl;
  cmp_cases; solve [ reflexivity | exfalso; lra ].

Example classify_60 : classify_state 60 true = Ret DANGER.
Proof. classify_eval. Qed.

Example classify_just_above_60 : classify_state 60.0001 true = Ret WARNING.
Proof. classify_eval. Qed.

Example classify_120 : classify_state 120 true = Ret WARNING.
Proof. classify_eval. Qed.

Example classify_just_above_120 : classify_state 120.0001 true = Ret SAFE.
Proof. classify_eval. Qed.

Example classify_0 : classify_state 0 true = Ret DANGER.
Proof. classify_eval. Qed.

(** On integer pixels the first three branches compute. *)
Example distance_inside :
  distance_point_to_rect (50, 50)%Z (0, 0, 100, 100)%Z = Ret 0.
Proof. reflexivity. Qed.

Example distance_corner_of_rect :
  distance_point_to_rect (100, 100)%Z (0, 0, 100, 100)%Z = Ret 0.
Proof. reflexivity. Qed.

Example distance_above :
  distance_point_to_rect (50, -30)%Z (0, 0, 100, 100)%Z = Ret 30.
Proof. reflexivity. Qed.

Example distance_right :
  distance_point_to_rect (150, 50)%Z (0, 0, 100, 100)%Z = Ret 50.
Proof. reflexivity. Qed.

(** Pressing 'a' 42 times pushes the rectangle against the left border,
    where the clamps leave it one pixel wide; [x1 < x2] still holds. *)
Example run_keys_left_border :
  rect_of (run_keys (repeat (ord "a") 42) initial_state)
  = (0, 140, 1, 340)%Z.
Proof. reflexivity. Qed.

Example run_keys_quit :
  run_keys [ord "d"; ord "q"; ord "d"] initial_state
  = run_keys [ord "d"] initial_state.
Proof. reflexivity. Qed.

(** * Further properties of [state_logic.py] *)

Import Notions.

Lemma hypot_triangle (a b c d : R) :
  hypot (a + c) (b + d) <= hypot a b + hypot c d.
Proof.
  unfold hypot.
  assert (Hab := sqrt_pos (a * a + b * b)).
  assert (Hcd := sqrt_pos (c * c + d * d)).
  assert (Sab : sqrt (a * a + b * b) * sqrt (a * a + b * b) = a * a + b * b)
    by (apply sqrt_sqrt; nra).
  assert (Scd : sqrt (c * c + d * d) * sqrt (c * c + d * d) = c * c + d * d)
    by (apply sqrt_sqrt; nra).
  assert (CS : a * c + b * d <= sqrt (a * a + b * b) * sqrt (c * c + d * d)).
  { rewrite <- sqrt_mult by nra.
    destruct (Rle_dec (a * c + b * d) 0) as [Hn | Hp].
    - eapply Rle_trans; [ exact Hn | apply sqrt_pos ].
    - rewrite <- (sqrt_square (a * c + b * d)) by lra.
      apply sqrt_le_1_alt.
      assert (Hsq := Rle_0_sqr (a * d - b * c)). unfold Rsqr in Hsq. nra. }
  rewrite <- (sqrt_square (sqrt (a * a + b * b) + sqrt (c * c + d * d))) by lra.
  apply sqrt_le_1_alt. nra.
Qed.

Lemma euclid_sym (p q : point R) : euclid p q = euclid q p.
Proof.
  unfold euclid.
  replace (fst p - fst q) with (- (fst q - fst p)) by ring.
  replace (snd p - snd q) with (- (snd q - snd p)) by ring.
  rewrite hypot_opp_l, hypot_opp_r. reflexivity.
Qed.

Lemma euclid_triangle (p q r : point R) :
  euclid p r <= euclid p q + euclid q r.
Proof.
  unfold euclid.
  replace (fst p - fst r) with ((fst p - fst q) + (fst q - fst r)) by ring.
  replace (snd p - snd r) with ((snd p - snd q) + (snd q - snd r)) by ring.
  apply hypot_triangle.
Qed.

(** The closed form also holds when a side has length zero. *)
Lemma distance_is_reference_weak (pt : point R) (rect : rectangle R) :
  weak_rect rect ->
  distance_point_to_rect pt rect = Ret (reference_distance pt rect).
Proof.
  destruct pt as [px py]. destruct rect as [[[x1 y1] x2] y2].
  simpl. intros [Hx Hy].
  unfold reference_distance, euclid, nearest_point; simpl.
  cmp_cases; try lra; f_equal; clamp_resolve;
    try (replace (px - px) with 0 by ring; rewrite hypot_0_l; abs_lra);
    try (replace (py - py) with 0 by ring; rewrite hypot_0_r; abs_lra);
    (apply Rmin4_eq; [ tauto | apply hypot_le; abs_lra .. ]).
Qed.

Lemma nearest_point_in_weak_rect (pt : point R) (rect : rectangle R) :
  weak_rect rect -> in_rect (nearest_point pt rect) rect.
Proof.
  destruct pt as [px py]. destruct rect as [[[x1 y1] x2] y2].
  simpl. intros [Hx Hy].
  split; apply clampR_bounds; lra.
Qed.

Lemma reference_distance_lipschitz (p q : point R) (rect : rectangle R) :
  weak_rect rect ->
  reference_distance p rect <= euclid p q + reference_distance q rect.
Proof.
  intros Hw.
  eapply Rle_trans.
  - apply (reference_distance_least p (nearest_point q rect) rect).
    apply nearest_point_in_weak_rect. assumption.
  - apply euclid_triangle.
Qed.

(** X3.  Whatever the rectangle, also a malformed one with [x2 < x1] or
    [y2 < y1], the call returns and its result is never negative. *)
Theorem distance_never_negative (pt : point R) (rect : rectangle R) :
  exists d : R, distance_point_to_rect pt rect = Ret d /\ 0 <= d.
Proof.
  destruct pt as [px py]. destruct rect as [[[x1 y1] x2] y2].
  simpl.
  cmp_cases; eexists; (split; [ reflexivity |]); try lra.
  all: repeat apply Rmin_glb; apply hypot_nonneg.
Qed.

Lemma Rleb_add_r (a b c : R) : Rleb (a + c) (b + c) = Rleb a b.
Proof.
  destruct (Rleb a b) eqn:E.
  - apply Rleb_true in E. apply Rleb_true. lra.
  - apply Rleb_false in E. apply Rleb_false. lra.
Qed.

Lemma Rltb_add_r (a b c : R) : Rltb (a + c) (b + c) = Rltb a b.
Proof.
  destruct (Rltb a b) eqn:E.
  - apply Rltb_true in E. apply Rltb_true. lra.
  - apply Rltb_false in E. apply Rltb_false. lra.
Qed.

Lemma Zleb_add_r (a b c : Z) : ((a + c <=? b + c) = (a <=? b))%Z.
Proof. destruct (Z.leb_spec a b), (Z.leb_spec (a + c) (b + c)); lia. Qed.

Lemma Zltb_add_r (a b c : Z) : ((a + c <? b + c) = (a <? b))%Z.
Proof. destruct (Z.ltb_spec a b), (Z.ltb_spec (a + c) (b + c)); lia. Qed.

(** X4.  Shifting the point and the rectangle by the same vector leaves
    the result unchanged, for every rectangle, on reals and on integer
    pixels alike. *)
Theorem distance_translation :
  (forall (v pt : point R) (rect : rectangle R),
     distance_point_to_rect (translate_pt Rplus v pt)
                            (translate_rect Rplus v rect)
     = distance_point_to_rect pt rect) /\
  (forall (v pt : point Z) (rect : rectangle Z),
     distance_point_to_rect (translate_pt Z.add v pt)
                            (translate_rect Z.add v rect)
     = distance_point_to_rect pt rect).
Proof.
  split.
  - intros [dx dy] [px py] [[[x1 y1] x2] y2].
    unfold translate_pt, translate_rect, distance_point_to_rect. simpl.
    rewrite !Rleb_add_r, !Rltb_add_r.
    replace (y1 + dy - (py + dy)) with (y1 - py) by ring.
    replace (py + dy - (y2 + dy)) with (py - y2) by ring.
    replace (x1 + dx - (px + dx)) with (x1 - px) by ring.
    replace (px + dx - (x2 + dx)) with (px - x2) by ring.
    replace (px + dx - (x1 + dx)) with (px - x1) by ring.
    replace (py + dy - (y1 + dy)) with (py - y1) by ring.
    reflexivity.
  - intros [dx dy] [px py] [[[x1 y1] x2] y2].
    unfold translate_pt, translate_rect, distance_point_to_rect. simpl.
    rewrite !Zleb_add_r, !Zltb_add_r.
    replace (y1 + dy - (py + dy))%Z with (y1 - py)%Z by ring.
    replace (py + dy - (y2 + dy))%Z with (py - y2)%Z by ring.
    replace (x1 + dx - (px + dx))%Z with (x1 - px)%Z by ring.
    replace (px + dx - (x2 + dx))%Z with (px - x2)%Z by ring.
    replace (px + dx - (x1 + dx))%Z with (px - x1)%Z by ring.
    replace (py + dy - (y1 + dy))%Z with (py - y1)%Z by ring.
    reflexivity.
Qed.

(** X5.  With the hand present the classification is monotone in the
    distance: a larger distance never gives a more alarming state. *)
Theorem classify_monotone (d1 d2 : R) :
  d1 <= d2 ->
  exists s1 s2 : State,
    classify_state d1 true = Ret s1 /\
    classify_state d2 true = Ret s2 /\
    (severity s2 <= severity s1)%nat.
Proof.
  intros Hle. unfold classify_state, to_float, PyFloatable_R. simpl.
  cmp_cases; do 2 eexists; (split; [ reflexivity |]);
    (split; [ reflexivity |]); simpl; solve [ lia | exfalso; lra ].
Qed.

Lemma classify_monotone_witness :
  exists s1 s2 : State,
    classify_state 60 true = Ret s1 /\
    classify_state 121 true = Ret s2 /\
    (severity s2 <= severity s1)%nat.
Proof.
  apply (classify_monotone 60 121). lra.
Defined.

(** ** Integer pixels, as [main.py] passes them *)

Lemma IZR_Zmax (a b : Z) : IZR (Z.max a b) = Rmax (IZR a) (IZR b).
Proof.
  destruct (Z.max_spec a b) as [[H ->] | [H ->]].
  - symmetry. apply Rmax_right. apply IZR_le. lia.
  - symmetry. apply Rmax_left. apply IZR_le. lia.
Qed.

Lemma IZR_Zmin (a b : Z) : IZR (Z.min a b) = Rmin (IZR a) (IZR b).
Proof.
  destruct (Z.min_spec a b) as [[H ->] | [H ->]].
  - symmetry. apply Rmin_left. apply IZR_le. lia.
  - symmetry. apply Rmin_right. apply IZR_le. lia.
Qed.

Lemma clamp_IZR (v lo hi : Z) :
  IZR (clamp v lo hi) = clampR (IZR v) (IZR lo) (IZR hi).
Proof. unfold clamp, clampR. rewrite IZR_Zmax, IZR_Zmin. reflexivity. Qed.

Lemma reference_distance_px_sq (pt : point Z) (rect : rectangle Z) :
  reference_distance (point_IZR pt) (rect_IZR rect)
  * reference_distance (point_IZR pt) (rect_IZR rect)
  = IZR (sq_distance_px pt rect).
Proof.
  destruct pt as [cx cy]. destruct rect as [[[x1 y1] x2] y2].
  unfold reference_distance, euclid, nearest_point, point_IZR, rect_IZR,
    sq_distance_px, hypot. simpl.
  rewrite <- !clamp_IZR, <- !minus_IZR, <- !mult_IZR, <- plus_IZR.
  apply sqrt_sqrt. apply IZR_le.
  apply Z.add_nonneg_nonneg; apply Z.square_nonneg.
Qed.

Lemma classify_by_square (d : R) (n : Z) :
  0 <= d -> d * d = IZR n ->
  classify_state d true = Ret (classify_sq n).
Proof.
  intros Hd Hsq. unfold classify_state, classify_sq, to_float, PyFloatable_R.
  simpl.
  change (60 * 60)%Z with 3600%Z. change (120 * 120)%Z with 14400%Z.
  destruct (Z.leb_spec n 3600) as [H1 | H1];
    [| destruct (Z.leb_spec n 14400) as [H2 | H2] ].
  - apply IZR_le in H1. rewrite <- Hsq in H1.
    cmp_cases; solve [ reflexivity | exfalso; nra ].
  - apply IZR_lt in H1. apply IZR_le in H2. rewrite <- Hsq in H1, H2.
    cmp_cases; solve [ reflexivity | exfalso; nra ].
  - apply IZR_lt in H2. rewrite <- Hsq in H2.
    cmp_cases; solve [ reflexivity | exfalso; nra ].
Qed.



Example frame_state_pixels_example :
  classify_sq (sq_distance_px (450, 380)%Z (220, 140, 420, 340)%Z) = DANGER.
Proof. reflexivity. Qed.

(** * Further properties of [main.py] *)

Import MainLoop.

(** X8.  [clamp] by cases: with [vmin <= vmax] the value is brought into
    the range and left alone when it is already there; with the bounds
    the wrong way round the result is [vmin], whatever the value. *)
Theorem clamp_cases (val vmin vmax : Z) :
  ((vmin <= vmax -> vmin <= clamp val vmin vmax <= vmax) /\
   (vmin <= val <= vmax -> clamp val vmin vmax = val) /\
   (val < vmin -> clamp val vmin vmax = vmin) /\
   (vmin <= vmax < val -> clamp val vmin vmax = vmax) /\
   (vmax < vmin -> clamp val vmin vmax = vmin))%Z.
Proof. unfold clamp. repeat split; lia. Qed.

Lemma clamp_cases_witness :
  ((0 <= 639 -> 0 <= clamp (-10) 0 639 <= 639) /\
   (0 <= -10 <= 639 -> clamp (-10) 0 639 = -10) /\
   (-10 < 0 -> clamp (-10) 0 639 = 0) /\
   (0 <= 639 < -10 -> clamp (-10) 0 639 = 639) /\
   (639 < 0 -> clamp (-10) 0 639 = 0))%Z.
Proof. apply (clamp_cases (-10) 0 639). Defined.

Lemma move_rect_size (key : Z) (s : loop_state) :
  rect_valid s /\ rect_in_frame s ->
  (rect_width (move_rect key s) <= rect_width s /\
   rect_height (move_rect key s) <= rect_height s)%Z.
Proof.
  unfold rect_valid, rect_in_frame, rect_width, rect_height, move_rect,
    clamp, FRAME_W, FRAME_H.
  destruct s as [x1 y1 x2 y2 m]. simpl. intros H.
  destruct (key =? ord "w")%Z; [ simpl; lia |].
  destruct (key =? ord "s")%Z; [ simpl; lia |].
  destruct (key =? ord "a")%Z; [ simpl; lia |].
  destruct (key =? ord "d")%Z; simpl; lia.
Qed.

Lemma handle_key_size (key : Z) (s s' : loop_state) :
  handle_key key s = Some s' ->
  rect_valid s /\ rect_in_frame s ->
  (rect_width s' <= rect_width s /\ rect_height s' <= rect_height s)%Z.
Proof.
  unfold handle_key. intros E H.
  destruct (key =? ord "q")%Z; [ discriminate |].
  destruct (key =? ord "m")%Z.
  - injection E as <-. unfold rect_width, rect_height. simpl. lia.
  - destruct (existsb _ _); injection E as <-.
    + apply move_rect_size. exact H.
    + lia.
Qed.

(** X9.  The rectangle never grows: after any sequence of keys its width
    and height are at most what they were, so a rectangle squeezed
    against a border stays squeezed (from the initial rectangle both stay
    at most 200). *)
Theorem rect_never_grows (keys : list Z) (s : loop_state) :
  rect_valid s -> rect_in_frame s ->
  (rect_width (run_keys keys s) <= rect_width s /\
   rect_height (run_keys keys s) <= rect_height s)%Z.
Proof.
  revert s. induction keys as [| k rest IH]; intros s Hv Hf; simpl.
  - lia.
  - destruct (handle_key k s) as [s' |] eqn:E; [| lia ].
    destruct (handle_key_ok k s s' E (conj Hv Hf)) as [Hv' Hf'].
    destruct (handle_key_size k s s' E (conj Hv Hf)) as [Hw Hh].
    destruct (IH s' Hv' Hf') as [Hw' Hh']. lia.
Qed.

Lemma rect_never_grows_witness :
  (rect_width (run_keys (repeat (ord "d") 30 ++ repeat (ord "a") 30)
                 initial_state) <= rect_width initial_state /\
   rect_height (run_keys (repeat (ord "d") 30 ++ repeat (ord "a") 30)
                  initial_state) <= rect_height initial_state)%Z.
Proof.
  apply (rect_never_grows (repeat (ord "d") 30 ++ repeat (ord "a") 30)
           initial_state).
  - unfold rect_valid. simpl. lia.
  - unfold rect_in_frame, FRAME_W, FRAME_H. simpl. lia.
Defined.

(** X10.  Away from the borders opposite keys cancel: 'd' then 'a' gives
    the rectangle back when [x2 + 10 <= 640], 'a' then 'd' when
    [x1 >= 10], 's' then 'w' when [y2 + 10 <= 480], 'w' then 's' when
    [y1 >= 10]. *)
Theorem opposite_keys_cancel (s : loop_state) :
  rect_valid s -> rect_in_frame s ->
  ((rect_x2 s + 10 <= FRAME_W ->
      run_keys [ord "d"; ord "a"] s = s) /\
   (10 <= rect_x1 s ->
      run_keys [ord "a"; ord "d"] s = s) /\
   (rect_y2 s + 10 <= FRAME_H ->
      run_keys [ord "s"; ord "w"] s = s) /\
   (10 <= rect_y1 s ->
      run_keys [ord "w"; ord "s"] s = s))%Z.
Proof.
  unfold rect_valid, rect_in_frame, FRAME_W, FRAME_H.
  destruct s as [x1 y1 x2 y2 m]. simpl. intros Hv Hf.
  repeat split; intros Hroom; unfold move_rect, clamp, FRAME_W, FRAME_H;
    simpl; f_equal; lia.
Qed.

Lemma opposite_keys_cancel_witness :
  run_keys [ord "d"; ord "a"] initial_state = initial_state /\
  run_keys [ord "a"; ord "d"] initial_state = initial_state /\
  run_keys [ord "s"; ord "w"] initial_state = initial_state /\
  run_keys [ord "w"; ord "s"] initial_state = initial_state.
Proof.
  assert (Hv : rect_valid initial_state) by (unfold rect_valid; simpl; lia).
  assert (Hf : rect_in_frame initial_state)
    by (unfold rect_in_frame, FRAME_W, FRAME_H; simpl; lia).
  destruct (opposite_keys_cancel initial_state Hv Hf) as (H1 & H2 & H3 & H4).
  split; [ apply H1; unfold FRAME_W; simpl; lia |].
  split; [ apply H2; simpl; lia |].
  split; [ apply H3; unfold FRAME_H; simpl; lia |].
  apply H4; simpl; lia.
Defined.

(** X11.  Nothing after the first 'q' is processed: the variables are
    those reached by the keys before it. *)
Theorem run_keys_stops_at_q (before after : list Z) (s : loop_state) :
  run_keys (before ++ ord "q" :: after) s = run_keys before s.
Proof.
  revert s. induction before as [| k rest IH]; intros s; simpl.
  - reflexivity.
  - destruct (handle_key k s) as [s' |]; [ apply IH | reflexivity ].
Qed.

Lemma handle_key_None (key : Z) (s : loop_state) :
  handle_key key s = None -> key = ord "q".
Proof.
  unfold handle_key.
  destruct (Z.eqb_spec key (ord "q")) as [E | E]; [ tauto |].
  destruct (key =? ord "m")%Z; [ discriminate |].
  destruct (existsb _ _); discriminate.
Qed.

(** X12.  Key sequences compose: when the first sequence holds no 'q',
    running both in a row is running the second from where the first
    ends. *)
Theorem run_keys_app (keys1 keys2 : list Z) (s : loop_state) :
  Forall (fun k => k <> ord "q") keys1 ->
  run_keys (keys1 ++ keys2) s = run_keys keys2 (run_keys keys1 s).
Proof.
  intros Hq. revert s. induction Hq as [| k rest Hk _ IH]; intros s; simpl.
  - reflexivity.
  - destruct (handle_key k s) as [s' |] eqn:E; [ apply IH |].
    apply handle_key_None in E. contradiction.
Qed.

Lemma run_keys_app_witness :
  run_keys ([ord "d"; ord "m"] ++ [ord "w"]) initial_state
  = run_keys [ord "w"] (run_keys [ord "d"; ord "m"] initial_state).
Proof.
  apply (run_keys_app [ord "d"; ord "m"] [ord "w"] initial_state).
  repeat constructor; intros E; discriminate E.
Defined.

Lemma key_of_range (raw : Z) : (0 <= key_of raw < 256)%Z.
Proof.
  unfold key_of. change 255%Z with (Z.ones 8).
  rewrite Z.land_ones by lia. apply Z.mod_pos_bound. lia.
Qed.

Lemma key_of_mod (raw : Z) : key_of raw = (raw mod 256)%Z.
Proof.
  unfold key_of. change 255%Z with (Z.ones 8).
  rewrite Z.land_ones by lia. reflexivity.
Qed.

(** X13.  What a key can change.  Only 'q' ends the loop; the rectangle
    changes only on W/A/S/D and the mask flag only on 'm'; every other
    key, and no key at all ([waitKey] giving -1, read as 255), leaves the
    variables as they are; the bits of [waitKey] above the low byte are
    ignored. *)
Theorem handle_key_frame (raw : Z) (s : loop_state) :
  (handle_key (key_of raw) s = None <-> key_of raw = ord "q") /\
  (forall s' : loop_state, handle_key (key_of raw) s = Some s' ->
     (rect_of s' <> rect_of s -> is_wasd (key_of raw)) /\
     (show_mask s' <> show_mask s -> key_of raw = ord "m") /\
     (key_of raw <> ord "m" -> ~ is_wasd (key_of raw) -> s' = s)) /\
  handle_key (key_of (-1)) s = Some s /\
  (forall n : Z, handle_key (key_of (raw + 256 * n)) s
                 = handle_key (key_of raw) s).
Proof.
  split; [| split; [| split ] ].
  - unfold handle_key.
    destruct (Z.eqb_spec (key_of raw) (ord "q")) as [E | E].
    + tauto.
    + split; [| contradiction ].
      destruct (key_of raw =? ord "m")%Z; [ discriminate |].
      destruct (existsb _ _); discriminate.
  - intros s' E. unfold handle_key in E.
    destruct (key_of raw =? ord "q")%Z; [ discriminate |].
    destruct (Z.eqb_spec (key_of raw) (ord "m")) as [Em | Em].
    + injection E as <-. simpl. unfold rect_of. simpl.
      repeat split; intros; congruence.
    + destruct (existsb _ _) eqn:Ex; injection E as <-.
      * apply existsb_exists in Ex. destruct Ex as (k & Hin & Hk).
        apply Z.eqb_eq in Hk. subst k.
        assert (W : is_wasd (key_of raw)).
        { unfold is_wasd. simpl in Hin. intuition congruence. }
        repeat split; intros; try assumption; try contradiction.
        exfalso. unfold move_rect in *.
        repeat match goal with
               | H : context [(?a =? ?b)%Z] |- _ => destruct (a =? b)%Z
               end; simpl in *; congruence.
      * repeat split; intros; congruence.
  - reflexivity.
  - intros n. rewrite !key_of_mod.
    replace (raw + 256 * n)%Z with (raw + n * 256)%Z by ring.
    rewrite Z.mod_add by lia. reflexivity.
Qed.

Lemma rect_of_valid (s : loop_state) :
  rect_valid s -> valid_rect (rect_IZR (rect_of s)).
Proof.
  unfold rect_valid, rect_of. simpl. intros [Hx Hy].
  split; apply IZR_lt; assumption.
Qed.

Lemma rect_of_ok (s : loop_state) :
  rect_valid s -> rect_in_frame s -> rect_ok (rect_of s).
Proof.
  unfold rect_valid, rect_in_frame, rect_ok, rect_of. lia.
Qed.

Lemma frame_display_ok (c : option (point Z)) (s : loop_state) :
  rect_valid s -> rect_in_frame s ->
  exists r : option R * State,
    frame_state c (rect_of s) = Ret r /\
    display_ok {| shown_centroid := c; shown_rect := rect_of s;
                  shown_distance := fst r; shown_state := snd r |}.
Proof.
  intros Hv Hf. destruct c as [c |].
  - set (d := reference_distance (point_IZR c) (rect_IZR (rect_of s))).
    assert (Hd : 0 <= d) by apply hypot_nonneg.
    assert (Hsq := reference_distance_px_sq c (rect_of s)). fold d in Hsq.
    exists (Some d, classify_sq (sq_distance_px c (rect_of s))). split.
    + unfold frame_state.
      rewrite distance_pixels, distance_is_reference
        by (apply rect_of_valid; assumption).
      fold d. simpl. rewrite (classify_by_square d _ Hd Hsq). reflexivity.
    + split; [ apply rect_of_ok; assumption |].
      simpl. exists d. repeat split; assumption || reflexivity.
  - eexists. split; [ reflexivity |].
    split; [ apply rect_of_ok; assumption |].
    simpl. split; reflexivity.
Qed.



(** X15.  The variables the loop ends with are those [run_keys] reaches
    on the low bytes of the keys read before the first failed read. *)
Theorem main_loop_final_state (inputs : list frame_input) (s : loop_state) :
  rect_valid s -> rect_in_frame s ->
  exc_map snd (main_loop inputs s) = Ret (run_keys (keys_read inputs) s).
Proof.
  revert s. induction inputs as [| f rest IH]; intros s Hv Hf; simpl.
  - reflexivity.
  - destruct (ret f); simpl; [| reflexivity ].
    destruct (frame_display_ok (centroid f) s Hv Hf) as (r & E & _).
    rewrite E. simpl.
    destruct (handle_key (key_of (wait_key f)) s) as [s1 |] eqn:K.
    + destruct (handle_key_ok _ _ _ K (conj Hv Hf)) as [Hv1 Hf1].
      specialize (IH s1 Hv1 Hf1). unfold exc_map in *.
      destruct (main_loop rest s1) as [[outs s'] | e]; simpl in *.
      * exact IH.
      * discriminate IH.
    + reflexivity.
Qed.

Lemma main_loop_final_state_witness :
  exc_map snd
    (main_loop
       [ {| ret := true; centroid := None; wait_key := ord "d" |};
         {| ret := true; centroid := None; wait_key := ord "q" |} ]
       initial_state)
  = Ret (run_keys
           (keys_read
              [ {| ret := true; centroid := None; wait_key := ord "d" |};
                {| ret := true; centroid := None; wait_key := ord "q" |} ])
           initial_state).
Proof.
  apply (main_loop_final_state
           [ {| ret := true; centroid := None; wait_key := ord "d" |};
             {| ret := true; centroid := None; wait_key := ord "q" |} ]
           initial_state).
  - unfold rect_valid. simpl. lia.
  - unfold rect_in_frame, FRAME_W, FRAME_H. simpl. lia.
Defined.

(** X21.  One key press, for a proper rectangle inside the frame: W and S
    leave the horizontal span alone and A and D the vertical one; with
    room for a full step the rectangle moves by exactly 10 pixels and
    keeps its size. *)
Theorem move_rect_step (s : loop_state) :
  Main.rect_valid s -> rect_in_frame s ->
  (forall key : Z, key = ord "w" \/ key = ord "s" ->
     rect_x1 (move_rect key s) = rect_x1 s /\
     rect_x2 (move_rect key s) = rect_x2 s) /\
  (forall key : Z, key = ord "a" \/ key = ord "d" ->
     rect_y1 (move_rect key s) = rect_y1 s /\
     rect_y2 (move_rect key s) = rect_y2 s) /\
  ((10 <= rect_y1 s ->
      rect_of (move_rect (ord "w") s)
      = (rect_x1 s, rect_y1 s - 10, rect_x2 s, rect_y2 s - 10)) /\
   (rect_y2 s + 10 <= FRAME_H ->
      rect_of (move_rect (ord "s") s)
      = (rect_x1 s, rect_y1 s + 10, rect_x2 s, rect_y2 s + 10)) /\
   (10 <= rect_x1 s ->
      rect_of (move_rect (ord "a") s)
      = (rect_x1 s - 10, rect_y1 s, rect_x2 s - 10, rect_y2 s)) /\
   (rect_x2 s + 10 <= FRAME_W ->
      rect_of (move_rect (ord "d") s)
      = (rect_x1 s + 10, rect_y1 s, rect_x2 s + 10, rect_y2 s)))%Z.
Proof.
  unfold Main.rect_valid, rect_in_frame, FRAME_W, FRAME_H.
  destruct s as [x1 y1 x2 y2 m]. simpl. intros Hv Hf.
  split; [| split ].
  - intros key [-> | ->]; unfold move_rect, clamp, FRAME_W, FRAME_H; simpl;
      lia.
  - intros key [-> | ->]; unfold move_rect, clamp, FRAME_W, FRAME_H; simpl;
      lia.
  - split; [| split; [| split ] ]; intros Hroom;
      unfold rect_of, move_rect, clamp, FRAME_W, FRAME_H; simpl;
      (f_equal; [ f_equal; [ f_equal |] |]); lia.
Qed.

Lemma move_rect_step_witness :
  (forall key : Z, key = ord "w" \/ key = ord "s" ->
     rect_x1 (move_rect key initial_state) = rect_x1 initial_state /\
     rect_x2 (move_rect key initial_state) = rect_x2 initial_state) /\
  (forall key : Z, key = ord "a" \/ key = ord "d" ->
     rect_y1 (move_rect key initial_state) = rect_y1 initial_state /\
     rect_y2 (move_rect key initial_state) = rect_y2 initial_state) /\
  ((10 <= rect_y1 initial_state ->
      rect_of (move_rect (ord "w") initial_state)
      = (rect_x1 initial_state, rect_y1 initial_state - 10,
         rect_x2 initial_state, rect_y2 initial_state - 10)) /\
   (rect_y2 initial_state + 10 <= FRAME_H ->
      rect_of (move_rect (ord "s") initial_state)
      = (rect_x1 initial_state, rect_y1 initial_state + 10,
         rect_x2 initial_state, rect_y2 initial_state + 10)) /\
   (10 <= rect_x1 initial_state ->
      rect_of (move_rect (ord "a") initial_state)
      = (rect_x1 initial_state - 10, rect_y1 initial_state,
         rect_x2 initial_state - 10, rect_y2 initial_state)) /\
   (rect_x2 initial_state + 10 <= FRAME_W ->
      rect_of (move_rect (ord "d") initial_state)
      = (rect_x1 initial_state + 10, rect_y1 initial_state,
         rect_x2 initial_state + 10, rect_y2 initial_state)))%Z.
Proof.
  apply (move_rect_step initial_state).
  - unfold Main.rect_valid. simpl. lia.
  - unfold rect_in_frame, FRAME_W, FRAME_H. simpl. lia.
Defined.

(** * Properties of [hand_tracker.py] *)

Import HandTracker.

Lemma nth_error_map_prefix {A : Type} (f : A -> A) (k : nat) (l : list A)
    (i : nat) :
  nth_error (map f (firstn k l) ++ skipn k l) i
  = if (i <? k)%nat then option_map f (nth_error l i) else nth_error l i.
Proof.
  revert l i. induction k as [| k IH]; intros l i.
  - simpl. reflexivity.
  - destruct l as [| a l].
    + simpl. destruct (i <? S k)%nat; destruct i; reflexivity.
    + destruct i as [| i]; simpl.
      * reflexivity.
      * rewrite IH. reflexivity.
Qed.

Lemma pixel_zero_rows (k : nat) (mask : image) (r c : nat) :
  pixel (zero_rows k mask) r c
  = if (r <? k)%nat then option_map (fun _ => 0%Z) (pixel mask r c)
    else pixel mask r c.
Proof.
  unfold pixel, zero_rows. rewrite nth_error_map_prefix.
  destruct (r <? k)%nat; [| reflexivity ].
  destruct (nth_error mask r) as [row |]; simpl; [| reflexivity ].
  unfold zero_row. rewrite nth_error_map. reflexivity.
Qed.

Lemma pixel_zero_cols (k : nat) (mask : image) (r c : nat) :
  pixel (zero_cols k mask) r c
  = if (c <? k)%nat then option_map (fun _ => 0%Z) (pixel mask r c)
    else pixel mask r c.
Proof.
  unfold pixel, zero_cols. rewrite nth_error_map.
  destruct (nth_error mask r) as [row |]; simpl.
  - unfold zero_row. rewrite nth_error_map_prefix. reflexivity.
  - destruct (c <? k)%nat; reflexivity.
Qed.

(** X16.  The two assignments that blank the mask keep its shape, set to 0
    every pixel in the top [frame_height // 2] rows or the left
    [frame_width // 3] columns, and leave every other pixel as it was. *)
Theorem suppress_regions_pixel
    (frame_width frame_height : nat) (mask : image) (r c : nat) :
  pixel (suppress_regions frame_width frame_height mask) r c
  = match pixel mask r c with
    | None => None
    | Some v =>
        Some (if (r <? frame_height / 2)%nat || (c <? frame_width / 3)%nat
              then 0%Z else v)
    end.
Proof.
  unfold suppress_regions. rewrite pixel_zero_cols, pixel_zero_rows.
  destruct (r <? frame_height / 2)%nat, (c <? frame_width / 3)%nat,
    (pixel mask r c); reflexivity.
Qed.

Example suppress_regions_small :
  suppress_regions 6 4 [[1; 2; 3; 4; 5; 6]; [1; 2; 3; 4; 5; 6];
                        [1; 2; 3; 4; 5; 6]; [1; 2; 3; 4; 5; 6]]%Z
  = [[0; 0; 0; 0; 0; 0]; [0; 0; 0; 0; 0; 0];
     [0; 0; 3; 4; 5; 6]; [0; 0; 3; 4; 5; 6]]%Z.
Proof. reflexivity. Qed.

(** ** [max] with a key *)

Lemma fold_keep_larger {A : Type} (key : A -> R) (tl : list A) (x : A) :
  exists (pre post : list A),
    x :: tl = pre ++ fold_left (keep_larger key) tl x :: post /\
    (forall y, In y pre -> key y < key (fold_left (keep_larger key) tl x)) /\
    (forall y, In y post -> key y <= key (fold_left (keep_larger key) tl x)).
Proof.
  induction tl as [| y tl IH] using rev_ind.
  - exists [], []. simpl. repeat split; intros y [].
  - destruct IH as (pre & post & E & Hpre & Hpost).
    rewrite fold_left_app. simpl.
    set (best := fold_left (keep_larger key) tl x) in *.
    destruct (Rltb (key best) (key y)) eqn:C.
    + assert (K : keep_larger key best y = y)
        by (unfold keep_larger; rewrite C; reflexivity).
      rewrite K. apply Rltb_true in C.
      exists (x :: tl), []. split; [| split ].
      * rewrite app_comm_cons. reflexivity.
      * intros z Hz. rewrite E in Hz. apply in_app_or in Hz.
        destruct Hz as [Hz | [<- | Hz]].
        -- specialize (Hpre z Hz). lra.
        -- assumption.
        -- specialize (Hpost z Hz). lra.
      * intros z [].
    + assert (K : keep_larger key best y = best)
        by (unfold keep_larger; rewrite C; reflexivity).
      rewrite K. apply Rltb_false in C.
      exists pre, (post ++ [y]). split; [| split ].
      * rewrite app_comm_cons, E, <- app_assoc. reflexivity.
      * assumption.
      * intros z Hz. apply in_app_or in Hz.
        destruct Hz as [Hz | [<- | []]]; [ apply Hpost; assumption | lra ].
Qed.

Lemma py_max_key_split {A : Type} (key : A -> R) (l : list A) :
  l <> [] ->
  exists (best : A) (pre post : list A),
    py_max_key key l = Ret best /\
    l = pre ++ best :: post /\
    (forall y, In y pre -> key y < key best) /\
    (forall y, In y post -> key y <= key best).
Proof.
  destruct l as [| x tl]; [ congruence |]. intros _.
  destruct (fold_keep_larger key tl x) as (pre & post & E & Hpre & Hpost).
  exists (fold_left (keep_larger key) tl x), pre, post.
  repeat split; assumption.
Qed.

(** X17.  [max(l, key=...)] raises on the empty list and otherwise returns
    the first element with the largest key: every element before it has
    a strictly smaller key, every element after it a key at most as
    large. *)
Theorem py_max_key_first {A : Type} (key : A -> R) (l : list A) :
  (l = [] -> py_max_key key l = Raise ValueError) /\
  (l <> [] ->
   exists (best : A) (pre post : list A),
     py_max_key key l = Ret best /\
     l = pre ++ best :: post /\
     (forall y, In y pre -> key y < key best) /\
     (forall y, In y post -> key y <= key best)).
Proof.
  split.
  - intros ->. reflexivity.
  - apply py_max_key_split.
Qed.

(** ** [int] on a float *)

Lemma Int_part_nonneg (x : R) : 0 <= x -> (0 <= Int_part x)%Z.
Proof.
  intros Hx. destruct (base_Int_part x) as [_ Hlow].
  assert (H : -1 < IZR (Int_part x)) by lra.
  apply lt_IZR in H. lia.
Qed.

Lemma py_int_trunc (x : R) :
  Rabs (IZR (py_int x)) <= Rabs x /\
  Rabs (x - IZR (py_int x)) < 1 /\
  (0 <= x -> 0 <= IZR (py_int x) <= x) /\
  (x <= 0 -> x <= IZR (py_int x) <= 0).
Proof.
  unfold py_int. destruct (Rleb 0 x) eqn:C.
  - apply Rleb_true in C.
    destruct (base_Int_part x) as [Hup Hlow].
    assert (Hn := IZR_le _ _ (Int_part_nonneg x C)).
    repeat split; try abs_lra; lra.
  - apply Rleb_false in C.
    destruct (base_Int_part (- x)) as [Hup Hlow].
    assert (Hx : 0 <= - x) by lra.
    assert (Hn := IZR_le _ _ (Int_part_nonneg (- x) Hx)).
    rewrite opp_IZR.
    repeat split; try abs_lra; lra.
Qed.

(** ** From the contours to the centroid *)

Section ProcessFrameProperties.

Variable contour : Type.
Variable contourArea : contour -> R.
Variable arcLength : contour -> R.
Variable approxPolyDP : contour -> R -> contour.
Variable boundingRect : contour -> Z * Z * Z * Z.
Variable cv_moments : contour -> moments.
Variable min_contour_area : R.

Let run := process_frame contourArea arcLength approxPolyDP boundingRect
             cv_moments min_contour_area.

(** The contour the method goes on with, and what it reports for it. *)
Let simplified (c : contour) : contour :=
  approxPolyDP c (0.01 * arcLength c).

Lemma process_frame_cases (contours : list contour) :
  (run contours = Ret not_found /\
   forall c, In c contours -> contourArea c < min_contour_area) \/
  (exists c : contour,
     In c contours /\
     (forall c', In c' contours -> contourArea c' <= contourArea c) /\
     min_contour_area <= contourArea c /\
     ((m00 (cv_moments (simplified c)) = 0 /\
       run contours
       = Ret {| det_centroid := None;
                det_contour := Some (simplified c);
                det_bbox := Some (boundingRect (simplified c)) |}) \/
      (m00 (cv_moments (simplified c)) <> 0 /\
       run contours
       = Ret {| det_centroid :=
                  Some (py_int (m10 (cv_moments (simplified c))
                                / m00 (cv_moments (simplified c))),
                        py_int (m01 (cv_moments (simplified c))
                                / m00 (cv_moments (simplified c))));
                det_contour := Some (simplified c);
                det_bbox := Some (boundingRect (simplified c)) |}))).
Proof.
  destruct contours as [| c0 tl].
  - left. split; [ reflexivity | intros c [] ].
  - assert (Hne : c0 :: tl <> []) by discriminate.
    destruct (py_max_key_split contourArea (c0 :: tl) Hne)
      as (best & pre & post & E & Hl & Hpre & Hpost).
    assert (Hmax : forall c', In c' (c0 :: tl) ->
                              contourArea c' <= contourArea best).
    { intros c' Hc'. rewrite Hl in Hc'. apply in_app_or in Hc'.
      destruct Hc' as [Hc' | [<- | Hc']].
      - specialize (Hpre c' Hc'). lra.
      - lra.
      - apply Hpost. assumption. }
    assert (Hin : In best (c0 :: tl)).
    { rewrite Hl. apply in_or_app. right. left. reflexivity. }
    unfold run, process_frame. rewrite E. simpl bind.
    destruct (Rltb (contourArea best) min_contour_area) eqn:C.
    + apply Rltb_true in C. left. split; [ reflexivity |].
      intros c Hc. specialize (Hmax c Hc). lra.
    + apply Rltb_false in C. right. exists best.
      split; [ assumption |]. split; [ assumption |].
      split; [ assumption |].
      fold (simplified best).
      destruct (Reqb (m00 (cv_moments (simplified best))) 0) eqn:M.
      * apply Reqb_true in M. left. split; [ assumption | reflexivity ].
      * apply Reqb_false in M. right. split; [ assumption | reflexivity ].
Qed.

(** X18.  The method never raises.  It reports a contour and a bounding
    box exactly when some contour has an area of at least
    [min_contour_area]; a centroid is reported only together with them. *)
Theorem process_frame_found (contours : list contour) :
  exists det : detection contour,
    run contours = Ret det /\
    (det_bbox det <> None <->
     exists c, In c contours /\ min_contour_area <= contourArea c) /\
    (det_contour det <> None <-> det_bbox det <> None) /\
    (det_centroid det <> None -> det_bbox det <> None).
Proof.
  destruct (process_frame_cases contours)
    as [[E Hsmall] | (c & Hin & Hmax & Hbig & [[M E] | [M E]])];
    rewrite E; eexists; (split; [ reflexivity |]); simpl.
  - split; [| split ].
    + split; [ congruence |].
      intros (c & Hc & Hbig). specialize (Hsmall c Hc). lra.
    + tauto.
    + congruence.
  - split; [| split ].
    + split; [ intros _; exists c; tauto | congruence ].
    + split; congruence.
    + congruence.
  - split; [| split ].
    + split; [ intros _; exists c; tauto | congruence ].
    + split; congruence.
    + congruence.
Qed.

(** X19.  A reported centroid belongs to a contour of largest area, of
    area at least [min_contour_area], whose simplified form has a
    non-zero [m00]; its coordinates are the ratios [m10/m00] and
    [m01/m00] cut toward zero, so each differs from the ratio by less
    than one pixel and is not larger in absolute value. *)
Theorem process_frame_centroid
    (contours : list contour) (det : detection contour) (cx cy : Z) :
  run contours = Ret det ->
  det_centroid det = Some (cx, cy) ->
  exists c : contour,
    In c contours /\
    (forall c', In c' contours -> contourArea c' <= contourArea c) /\
    min_contour_area <= contourArea c /\
    det_contour det = Some (simplified c) /\
    det_bbox det = Some (boundingRect (simplified c)) /\
    m00 (cv_moments (simplified c)) <> 0 /\
    let M := cv_moments (simplified c) in
    Rabs (m10 M / m00 M - IZR cx) < 1 /\ Rabs (IZR cx) <= Rabs (m10 M / m00 M) /\
    Rabs (m01 M / m00 M - IZR cy) < 1 /\ Rabs (IZR cy) <= Rabs (m01 M / m00 M).
Proof.
  intros E Hc.
  destruct (process_frame_cases contours)
    as [[E' _] | (c & Hin & Hmax & Hbig & [[M E'] | [M E']])];
    rewrite E' in E; injection E as <-; simpl in Hc; try discriminate.
  injection Hc as <- <-.
  exists c. repeat split; try assumption;
    try apply (py_int_trunc (m10 (cv_moments (simplified c))
                             / m00 (cv_moments (simplified c))));
    apply (py_int_trunc (m01 (cv_moments (simplified c))
                         / m00 (cv_moments (simplified c)))).
Qed.

Lemma process_frame_degenerate (contours : list contour) (c : contour) :
  py_max_key contourArea contours = Ret c ->
  min_contour_area <= contourArea c ->
  m00 (cv_moments (simplified c)) = 0 ->
  run contours
  = Ret {| det_centroid := None;
           det_contour := Some (simplified c);
           det_bbox := Some (boundingRect (simplified c)) |}.
Proof.
  intros E Hbig M.
  destruct contours as [| c0 tl]; [ discriminate E |].
  unfold run, process_frame. rewrite E. simpl bind.
  apply Rltb_false in Hbig. rewrite Hbig.
  fold (simplified c).
  apply Reqb_true in M. rewrite M. reflexivity.
Qed.

(** X20.  Tracker, then [main]: whatever the contours the frame's state is
    computed without raising.  With no contour of area at least
    [min_contour_area] nothing is found, no distance is shown and the
    state is SAFE.  When the contour [max] selects is large enough but
    its simplified form has [m00 = 0], the contour is reported without a
    centroid, and again no distance is shown and the state is SAFE. *)
Theorem tracker_then_main
    (contours : list contour) (rect : rectangle Z) :
  exists (det : detection contour) (r : option R * State),
    run contours = Ret det /\
    Main.frame_state (det_centroid det) rect = Ret r /\
    ((forall c, In c contours -> contourArea c < min_contour_area) ->
     det = not_found /\ r = (None, SAFE)) /\
    (forall c : contour,
       py_max_key contourArea contours = Ret c ->
       min_contour_area <= contourArea c ->
       m00 (cv_moments (simplified c)) = 0 ->
       det_centroid det = None /\
       det_contour det = Some (simplified c) /\
       r = (None, SAFE)) /\
    (det_centroid det = None -> r = (None, SAFE)).
Proof.
  destruct (process_frame_cases contours)
    as [[E Hsmall] | (c & Hin & Hmax & Hbig & [[M E] | [M E]])].
  - exists not_found, (None, SAFE).
    split; [ exact E |]. split; [ reflexivity |].
    split; [ intros _; split; reflexivity |].
    split; [| reflexivity ].
    intros c Ec Hb M0.
    rewrite (process_frame_degenerate contours c Ec Hb M0) in E.
    discriminate E.
  - eexists _, (None, SAFE). split; [ exact E |].
    split; [ reflexivity |]. split; [| split; [| reflexivity ] ].
    + intros Hsmall. specialize (Hsmall c Hin). lra.
    + intros c' Ec Hb M0.
      rewrite (process_frame_degenerate contours c' Ec Hb M0) in E.
      injection E as E1 E2. simpl.
      split; [ reflexivity |]. split; [ f_equal; symmetry; exact E1 |].
      reflexivity.
  - destruct (frame_state_returns
                (Some (py_int (m10 (cv_moments (simplified c))
                               / m00 (cv_moments (simplified c))),
                       py_int (m01 (cv_moments (simplified c))
                               / m00 (cv_moments (simplified c)))))
                rect) as [r Hr].
    eexists _, r. split; [ exact E |].
    split; [ exact Hr |]. split; [| split ].
    + intros Hsmall. specialize (Hsmall c Hin). lra.
    + intros c' Ec Hb M0.
      rewrite (process_frame_degenerate contours c' Ec Hb M0) in E.
      discriminate E.
    + simpl. discriminate.
Qed.

End ProcessFrameProperties.

(** A run on one contour of area 250, with [min_contour_area = 200] and
    moments [m00 = 2], [m10 = 7], [m01 = 9]. *)
Lemma process_frame_centroid_witness :
  exists c : Z,
    In c [250%Z] /\
    (forall c', In c' [250%Z] -> IZR c' <= IZR c) /\
    200 <= IZR c /\
    Some 250%Z = Some c /\
    Some (0, 0, 1, 1)%Z = Some (0, 0, 1, 1)%Z /\
    2 <> 0 /\
    Rabs (7 / 2 - IZR (py_int (7 / 2))) < 1 /\
    Rabs (IZR (py_int (7 / 2))) <= Rabs (7 / 2) /\
    Rabs (9 / 2 - IZR (py_int (9 / 2))) < 1 /\
    Rabs (IZR (py_int (9 / 2))) <= Rabs (9 / 2).
Proof.
  apply (process_frame_centroid
           Z IZR (fun _ => 0) (fun c _ => c) (fun _ => (0, 0, 1, 1)%Z)
           (fun _ => {| m00 := 2; m10 := 7; m01 := 9 |}) 200
           [250%Z]
           {| det_centroid := Some (py_int (7 / 2), py_int (9 / 2));
              det_contour := Some 250%Z;
              det_bbox := Some (0, 0, 1, 1)%Z |}
           (py_int (7 / 2)) (py_int (9 / 2))).
  - unfold process_frame. simpl.
    cmp_cases; solve [ reflexivity | exfalso; lra ].
  - reflexivity.
Defined.

(** * Integer pixels and the rounding of [math.hypot] *)

Import Rounded.

Lemma Rabs_le_bounds (a b : R) : Rabs a <= b -> - b <= a <= b.
Proof. unfold Rabs. destruct (Rcase_abs a); lra. Qed.

Lemma Rmin_approx (eps h1 h2 e1 e2 : R) :
  0 <= eps <= 1 -> 0 <= e1 -> 0 <= e2 ->
  Rabs (h1 - e1) <= eps * e1 -> Rabs (h2 - e2) <= eps * e2 ->
  Rabs (Rmin h1 h2 - Rmin e1 e2) <= eps * Rmin e1 e2.
Proof.
  intros He H1 H2 A1 A2.
  apply Rabs_le_bounds in A1. apply Rabs_le_bounds in A2.
  apply Rabs_le. unfold Rmin.
  destruct (Rle_dec h1 h2), (Rle_dec e1 e2); nra.
Qed.

Lemma Rmin_nonneg (a b : R) : 0 <= a -> 0 <= b -> 0 <= Rmin a b.
Proof. intros Ha Hb. apply Rmin_glb; assumption. Qed.

Lemma hypot_IZR (a b : Z) :
  hypot (IZR a) (IZR b) = sqrt (IZR (a * a + b * b)).
Proof. unfold hypot. rewrite plus_IZR, !mult_IZR. reflexivity. Qed.

Lemma Zabs_offset (a b : Z) :
  exact_coord a -> exact_coord b -> (Z.abs (a - b) <= 2 ^ 53)%Z.
Proof. unfold exact_coord. change (2 ^ 53)%Z with (2 * 2 ^ 52)%Z. lia. Qed.

(** Within a span the rounded function and the exact one take the same
    branch and return the same number. *)
Lemma rounded_in_span
    (math_hypot : R -> R -> R) (pt : point Z) (rect : rectangle Z) :
  (let '(cx, cy) := pt in
   let '(x1, y1, x2, y2) := rect in
   in_span cx x1 x2 \/ in_span cy y1 y2) ->
  Rounded.distance_point_to_rect math_hypot pt rect
  = StateLogic.distance_point_to_rect pt rect.
Proof.
  destruct pt as [cx cy]. destruct rect as [[[x1 y1] x2] y2].
  unfold in_span, Rounded.distance_point_to_rect,
    StateLogic.distance_point_to_rect. simpl.
  intros Hs.
  destruct (Z.leb_spec x1 cx), (Z.leb_spec cx x2), (Z.leb_spec y1 cy),
    (Z.leb_spec cy y2); simpl; try reflexivity; lia.
Qed.

Lemma rounded_vs_exact
    (math_hypot : R -> R -> R) (eps : R) (pt : point Z) (rect : rectangle Z) :
  0 <= eps <= 1 ->
  hypot_accurate eps math_hypot ->
  pixel_range pt rect ->
  exists d e : R,
    Rounded.distance_point_to_rect math_hypot pt rect = Ret d /\
    StateLogic.distance_point_to_rect pt rect = Ret e /\
    0 <= e /\
    Rabs (d - e) <= eps * e.
Proof.
  destruct pt as [cx cy]. destruct rect as [[[x1 y1] x2] y2].
  intros He Hacc (Pcx & Pcy & Px1 & Py1 & Px2 & Py2).
  assert (Hsame : forall e, 0 <= e -> Rabs (e - e) <= eps * e).
  { intros e H0. replace (e - e) with 0 by ring. rewrite Rabs_R0. nra. }
  unfold Rounded.distance_point_to_rect, StateLogic.distance_point_to_rect.
  simpl.
  destruct ((x1 <=? cx)%Z && (cx <=? x2)%Z) eqn:Bx;
    destruct ((y1 <=? cy)%Z && (cy <=? y2)%Z) eqn:By; simpl.
  - exists 0, 0. repeat split; try reflexivity; try lra. apply Hsame. lra.
  - apply andb_true_iff in Bx. apply andb_false_iff in By.
    destruct (Z.ltb_spec cy y1).
    + eexists _, _. repeat split; try reflexivity.
      * apply IZR_le. lia.
      * apply Hsame. apply IZR_le. lia.
    + eexists _, _. repeat split; try reflexivity.
      * apply IZR_le. destruct By as [By | By]; apply Z.leb_gt in By; lia.
      * apply Hsame. apply IZR_le.
        destruct By as [By | By]; apply Z.leb_gt in By; lia.
  - apply andb_true_iff in By. apply andb_false_iff in Bx.
    destruct (Z.ltb_spec cx x1).
    + eexists _, _. repeat split; try reflexivity.
      * apply IZR_le. lia.
      * apply Hsame. apply IZR_le. lia.
    + eexists _, _. repeat split; try reflexivity.
      * apply IZR_le. destruct Bx as [Bx | Bx]; apply Z.leb_gt in Bx; lia.
      * apply Hsame. apply IZR_le.
        destruct Bx as [Bx | Bx]; apply Z.leb_gt in Bx; lia.
  - eexists _, _. split; [ reflexivity |]. split; [ reflexivity |].
    assert (A : forall a b, exact_coord a -> exact_coord b -> forall c d, exact_coord c -> exact_coord d ->
              0 <= hypot (IZR (a - b)) (IZR (c - d)) /\
              Rabs (math_hypot (IZR (a - b)) (IZR (c - d))
                    - hypot (IZR (a - b)) (IZR (c - d)))
              <= eps * hypot (IZR (a - b)) (IZR (c - d))).
    { intros a b Pa Pb c d Pc Pd. split; [ apply hypot_nonneg |].
      rewrite hypot_IZR. apply Hacc; apply Zabs_offset; assumption. }
    destruct (A cx x1 Pcx Px1 cy y1 Pcy Py1) as [N1 A1].
    destruct (A cx x1 Pcx Px1 cy y2 Pcy Py2) as [N2 A2].
    destruct (A cx x2 Pcx Px2 cy y1 Pcy Py1) as [N3 A3].
    destruct (A cx x2 Pcx Px2 cy y2 Pcy Py2) as [N4 A4].
    split.
    + repeat apply Rmin_nonneg; assumption.
    + repeat (apply Rmin_approx; try assumption;
              try (repeat apply Rmin_nonneg; assumption)).
Qed.

Lemma weak_px_IZR (rect : rectangle Z) :
  weak_px rect -> weak_rect (rect_IZR rect).
Proof.
  destruct rect as [[[x1 y1] x2] y2]. simpl. intros [Hx Hy].
  split; apply IZR_le; assumption.
Qed.

Lemma valid_px_weak (rect : rectangle Z) : valid_px rect -> weak_px rect.
Proof. destruct rect as [[[x1 y1] x2] y2]. simpl. lia. Qed.

Lemma valid_px_IZR (rect : rectangle Z) :
  valid_px rect -> valid_rect (rect_IZR rect).
Proof.
  destruct rect as [[[x1 y1] x2] y2]. simpl. intros [Hx Hy].
  split; apply IZR_lt; assumption.
Qed.

Lemma exact_px_reference (pt : point Z) (rect : rectangle Z) :
  weak_px rect ->
  StateLogic.distance_point_to_rect pt rect
  = Ret (reference_distance (point_IZR pt) (rect_IZR rect)).
Proof.
  intros Hw. rewrite distance_pixels.
  apply distance_is_reference_weak. apply weak_px_IZR. assumption.
Qed.

(** On integer pixels the result is the true minimum distance, exactly
    within a span and up to the error of [math.hypot] otherwise. *)
Lemma rounded_reference
    (math_hypot : R -> R -> R) (eps : R) (pt : point Z) (rect : rectangle Z) :
  0 <= eps <= 1 ->
  hypot_accurate eps math_hypot ->
  pixel_range pt rect ->
  weak_px rect ->
  exists d : R,
    Rounded.distance_point_to_rect math_hypot pt rect = Ret d /\
    Rabs (d - reference_distance (point_IZR pt) (rect_IZR rect))
    <= eps * reference_distance (point_IZR pt) (rect_IZR rect) /\
    ((let '(cx, cy) := pt in
      let '(x1, y1, x2, y2) := rect in
      in_span cx x1 x2 \/ in_span cy y1 y2) ->
     d = reference_distance (point_IZR pt) (rect_IZR rect)).
Proof.
  intros He Hacc Hpx Hw.
  destruct (rounded_vs_exact math_hypot eps pt rect He Hacc Hpx)
    as (d & e & Ed & Ee & He0 & Hde).
  rewrite (exact_px_reference pt rect Hw) in Ee. injection Ee as <-.
  exists d. split; [ assumption |]. split; [ assumption |].
  intros Hs. rewrite (rounded_in_span math_hypot pt rect Hs) in Ed.
  rewrite (exact_px_reference pt rect Hw) in Ed. injection Ed as <-.
  reflexivity.
Qed.

(** C1, amended.  On integer pixel coordinates (magnitudes up to 2^52, as
    [main.py] passes them) and a rectangle with [x1 < x2] and [y1 < y2],
    the call returns a number [d] such that, with [ref] the true minimum
    Euclidean distance from the point to the rectangle (the distance to
    the point obtained by clamping, which lies in the rectangle and which
    no point of the rectangle beats): [d = ref] whenever the point lies
    within at least one of the two spans; otherwise [d] is [ref] up to the
    relative error [eps] of [math.hypot]; and [d = 0] exactly when the
    point is inside the rectangle or on its boundary. *)
Theorem distance_px_minimum
    (math_hypot : R -> R -> R) (eps : R) (cx cy x1 y1 x2 y2 : Z) :
  0 <= eps < 1 ->
  hypot_accurate eps math_hypot ->
  pixel_range (cx, cy) (x1, y1, x2, y2) ->
  valid_px (x1, y1, x2, y2) ->
  exists d : R,
    Rounded.distance_point_to_rect math_hypot (cx, cy) (x1, y1, x2, y2)
    = Ret d /\
    in_rect (nearest_point (point_IZR (cx, cy)) (rect_IZR (x1, y1, x2, y2)))
            (rect_IZR (x1, y1, x2, y2)) /\
    (forall q : point R,
       in_rect q (rect_IZR (x1, y1, x2, y2)) ->
       reference_distance (point_IZR (cx, cy)) (rect_IZR (x1, y1, x2, y2))
       <= euclid (point_IZR (cx, cy)) q) /\
    (in_span cx x1 x2 \/ in_span cy y1 y2 ->
     d = reference_distance (point_IZR (cx, cy))
                            (rect_IZR (x1, y1, x2, y2))) /\
    Rabs (d - reference_distance (point_IZR (cx, cy))
                                 (rect_IZR (x1, y1, x2, y2)))
    <= eps * reference_distance (point_IZR (cx, cy))
                                (rect_IZR (x1, y1, x2, y2)) /\
    (d = 0 <-> in_span cx x1 x2 /\ in_span cy y1 y2).
Proof.
  intros He Hacc Hpx Hv.
  assert (He' : 0 <= eps <= 1) by lra.
  destruct (rounded_reference math_hypot eps (cx, cy) (x1, y1, x2, y2)
              He' Hacc Hpx (valid_px_weak _ Hv)) as (d & Ed & Hde & Hin).
  assert (HvR := valid_px_IZR _ Hv).
  set (ref := reference_distance (point_IZR (cx, cy))
                                 (rect_IZR (x1, y1, x2, y2))) in *.
  assert (Href : 0 <= ref) by apply hypot_nonneg.
  assert (Hz := reference_distance_zero (point_IZR (cx, cy))
                  (rect_IZR (x1, y1, x2, y2)) HvR). fold ref in Hz.
  assert (Hrect : in_rect (point_IZR (cx, cy)) (rect_IZR (x1, y1, x2, y2))
                  <-> in_span cx x1 x2 /\ in_span cy y1 y2).
  { unfold in_span. simpl. split.
    - intros [[A B] [C D]]. apply le_IZR in A, B, C, D. lia.
    - intros [[A B] [C D]]. repeat split; apply IZR_le; assumption. }
  exists d. split; [ exact Ed |].
  split; [ apply nearest_point_in_rect; assumption |].
  split; [ intros q Hq; apply reference_distance_least; assumption |].
  split; [ exact Hin |]. split; [ exact Hde |].
  rewrite <- Hrect, <- Hz. apply Rabs_le_bounds in Hde.
  split; intros E.
  - subst d. nra.
  - rewrite E in Hde. lra.
Qed.

(** An exact [math.hypot] is accurate with [eps = 0]. *)
Lemma hypot_accurate_exact : hypot_accurate 0 hypot.
Proof.
  intros a b _ _. rewrite hypot_IZR.
  replace (sqrt (IZR (a * a + b * b)) - sqrt (IZR (a * a + b * b)))
    with 0 by ring.
  rewrite Rabs_R0. lra.
Qed.

Lemma exact_coord_small (n : Z) : (Z.abs n <= 1000)%Z -> exact_coord n.
Proof.
  unfold exact_coord. intros H. eapply Z.le_trans; [ exact H |].
  apply Z.leb_le. reflexivity.
Qed.

Lemma distance_px_minimum_witness :
  exists d : R,
    Rounded.distance_point_to_rect hypot (110, 110)%Z (0, 0, 100, 100)%Z
    = Ret d /\
    in_rect (nearest_point (point_IZR (110, 110)%Z)
                           (rect_IZR (0, 0, 100, 100)%Z))
            (rect_IZR (0, 0, 100, 100)%Z) /\
    (forall q : point R,
       in_rect q (rect_IZR (0, 0, 100, 100)%Z) ->
       reference_distance (point_IZR (110, 110)%Z)
                          (rect_IZR (0, 0, 100, 100)%Z)
       <= euclid (point_IZR (110, 110)%Z) q) /\
    (in_span 110 0 100 \/ in_span 110 0 100 ->
     d = reference_distance (point_IZR (110, 110)%Z)
                            (rect_IZR (0, 0, 100, 100)%Z)) /\
    Rabs (d - reference_distance (point_IZR (110, 110)%Z)
                                 (rect_IZR (0, 0, 100, 100)%Z))
    <= 0 * reference_distance (point_IZR (110, 110)%Z)
                              (rect_IZR (0, 0, 100, 100)%Z) /\
    (d = 0 <-> in_span 110 0 100 /\ in_span 110 0 100).
Proof.
  apply (distance_px_minimum hypot 0 110 110 0 0 100 100).
  - lra.
  - exact hypot_accurate_exact.
  - repeat split; apply exact_coord_small; simpl; lia.
  - simpl. lia.
Defined.

Lemma sqrt_IZR_min (a b : Z) :
  (0 <= a)%Z -> (0 <= b)%Z ->
  sqrt (IZR (Z.min a b)) = Rmin (sqrt (IZR a)) (sqrt (IZR b)).
Proof.
  intros Ha Hb.
  destruct (Z.min_spec a b) as [[H ->] | [H ->]].
  - symmetry. apply Rmin_left. apply sqrt_le_1_alt. apply IZR_le. lia.
  - symmetry. apply Rmin_right. apply sqrt_le_1_alt. apply IZR_le. lia.
Qed.

Lemma sq_corner_nonneg (pt corner : point Z) : (0 <= sq_corner pt corner)%Z.
Proof. unfold sq_corner. apply Z.add_nonneg_nonneg; apply Z.square_nonneg. Qed.

(** C4, amended.  On integer pixel coordinates, when the point is strictly
    outside both spans the call returns the least of the four values
    [math.hypot] gives for the offsets to the corners (x1,y1), (x1,y2),
    (x2,y1), (x2,y2); each is the Euclidean distance to that corner up to
    the relative error [eps] of [math.hypot], and so is the result with
    respect to the least of the four Euclidean corner distances. *)
Theorem distance_px_diagonal
    (math_hypot : R -> R -> R) (eps : R) (cx cy x1 y1 x2 y2 : Z) :
  0 <= eps <= 1 ->
  hypot_accurate eps math_hypot ->
  pixel_range (cx, cy) (x1, y1, x2, y2) ->
  valid_px (x1, y1, x2, y2) ->
  off_span cx x1 x2 ->
  off_span cy y1 y2 ->
  Rounded.distance_point_to_rect math_hypot (cx, cy) (x1, y1, x2, y2)
  = Ret (Rmin (Rmin (Rmin (math_hypot (IZR (cx - x1)) (IZR (cy - y1)))
                          (math_hypot (IZR (cx - x1)) (IZR (cy - y2))))
                    (math_hypot (IZR (cx - x2)) (IZR (cy - y1))))
              (math_hypot (IZR (cx - x2)) (IZR (cy - y2)))) /\
  Rabs (Rmin (Rmin (Rmin (math_hypot (IZR (cx - x1)) (IZR (cy - y1)))
                         (math_hypot (IZR (cx - x1)) (IZR (cy - y2))))
                   (math_hypot (IZR (cx - x2)) (IZR (cy - y1))))
             (math_hypot (IZR (cx - x2)) (IZR (cy - y2)))
        - sqrt (IZR (sq_corner_min (cx, cy) (x1, y1, x2, y2))))
  <= eps * sqrt (IZR (sq_corner_min (cx, cy) (x1, y1, x2, y2))).
Proof.
  intros He Hacc (Pcx & Pcy & Px1 & Py1 & Px2 & Py2) Hv Ox Oy.
  unfold off_span in Ox, Oy. split.
  - unfold Rounded.distance_point_to_rect.
    destruct (Z.leb_spec x1 cx), (Z.leb_spec cx x2), (Z.leb_spec y1 cy),
      (Z.leb_spec cy y2); simpl; try reflexivity; lia.
  - unfold sq_corner_min.
    rewrite !sqrt_IZR_min
      by (repeat apply Z.min_glb; apply sq_corner_nonneg).
    assert (A : forall a b c d, exact_coord a -> exact_coord b -> exact_coord c -> exact_coord d ->
              0 <= sqrt (IZR (sq_corner (a, c) (b, d))) /\
              Rabs (math_hypot (IZR (a - b)) (IZR (c - d))
                    - sqrt (IZR (sq_corner (a, c) (b, d))))
              <= eps * sqrt (IZR (sq_corner (a, c) (b, d)))).
    { intros a b c d Pa Pb Pc Pd. split; [ apply sqrt_pos |].
      unfold sq_corner. simpl. apply Hacc; apply Zabs_offset; assumption. }
    destruct (A cx x1 cy y1 Pcx Px1 Pcy Py1) as [N1 A1].
    destruct (A cx x1 cy y2 Pcx Px1 Pcy Py2) as [N2 A2].
    destruct (A cx x2 cy y1 Pcx Px2 Pcy Py1) as [N3 A3].
    destruct (A cx x2 cy y2 Pcx Px2 Pcy Py2) as [N4 A4].
    repeat (apply Rmin_approx; try assumption;
            try (repeat apply Rmin_nonneg; assumption)).
Qed.

(** The example of the specification, [R = (0,0,100,100)] and
    [P = (110,110)]: the least of the four corner values, and the least
    squared corner distance is 200. *)
Lemma distance_px_diagonal_witness :
  Rounded.distance_point_to_rect hypot (110, 110)%Z (0, 0, 100, 100)%Z
  = Ret (Rmin (Rmin (Rmin (hypot (IZR (110 - 0)) (IZR (110 - 0)))
                          (hypot (IZR (110 - 0)) (IZR (110 - 100))))
                    (hypot (IZR (110 - 100)) (IZR (110 - 0))))
              (hypot (IZR (110 - 100)) (IZR (110 - 100)))) /\
  Rabs (Rmin (Rmin (Rmin (hypot (IZR (110 - 0)) (IZR (110 - 0)))
                         (hypot (IZR (110 - 0)) (IZR (110 - 100))))
                   (hypot (IZR (110 - 100)) (IZR (110 - 0))))
             (hypot (IZR (110 - 100)) (IZR (110 - 100)))
        - sqrt (IZR 200))
  <= 0 * sqrt (IZR 200).
Proof.
  apply (distance_px_diagonal hypot 0 110 110 0 0 100 100).
  - lra.
  - exact hypot_accurate_exact.
  - repeat split; apply exact_coord_small; simpl; lia.
  - simpl. lia.
  - unfold off_span. lia.
  - unfold off_span. lia.
Defined.

Lemma axis_gap_px_IZR (p lo hi : Z) :
  IZR (axis_gap_px p lo hi) = axis_gap (IZR p) (IZR lo) (IZR hi).
Proof.
  unfold axis_gap_px, axis_gap.
  destruct (Z.ltb_spec p lo) as [H | H], (Rlt_dec (IZR p) (IZR lo)) as [H' | H'].
  - apply minus_IZR.
  - exfalso. apply H'. apply IZR_lt. assumption.
  - exfalso. apply lt_IZR in H'. lia.
  - apply minus_IZR.
Qed.

(** C5, amended.  On integer pixel coordinates: within the horizontal
    span and strictly outside the vertical one the call returns the
    vertical gap ([y1 - Py] if [Py < y1], else [Py - y2]), and
    symmetrically the horizontal gap; the value is exact, whatever
    [math.hypot] is, and strictly positive. *)
Theorem distance_px_axis_gap
    (math_hypot : R -> R -> R) (cx cy x1 y1 x2 y2 : Z) :
  pixel_range (cx, cy) (x1, y1, x2, y2) ->
  valid_px (x1, y1, x2, y2) ->
  (in_span cx x1 x2 -> off_span cy y1 y2 ->
   Rounded.distance_point_to_rect math_hypot (cx, cy) (x1, y1, x2, y2)
   = Ret (axis_gap (IZR cy) (IZR y1) (IZR y2)) /\
   axis_gap (IZR cy) (IZR y1) (IZR y2) = IZR (axis_gap_px cy y1 y2) /\
   (0 < axis_gap_px cy y1 y2)%Z) /\
  (in_span cy y1 y2 -> off_span cx x1 x2 ->
   Rounded.distance_point_to_rect math_hypot (cx, cy) (x1, y1, x2, y2)
   = Ret (axis_gap (IZR cx) (IZR x1) (IZR x2)) /\
   axis_gap (IZR cx) (IZR x1) (IZR x2) = IZR (axis_gap_px cx x1 x2) /\
   (0 < axis_gap_px cx x1 x2)%Z).
Proof.
  intros _ Hv. simpl in Hv. unfold in_span, off_span.
  split; intros Hin Hout; rewrite <- axis_gap_px_IZR;
    (split; [| split; [ reflexivity |] ]).
  - unfold Rounded.distance_point_to_rect, axis_gap_px.
    destruct (Z.leb_spec x1 cx), (Z.leb_spec cx x2), (Z.leb_spec y1 cy),
      (Z.leb_spec cy y2), (Z.ltb_spec cy y1); simpl; try reflexivity; lia.
  - unfold axis_gap_px. destruct (Z.ltb_spec cy y1); lia.
  - unfold Rounded.distance_point_to_rect, axis_gap_px.
    destruct (Z.leb_spec x1 cx), (Z.leb_spec cx x2), (Z.leb_spec y1 cy),
      (Z.leb_spec cy y2), (Z.ltb_spec cx x1); simpl; try reflexivity; lia.
  - unfold axis_gap_px. destruct (Z.ltb_spec cx x1); lia.
Qed.

Lemma distance_px_axis_gap_witness :
  (Rounded.distance_point_to_rect hypot (50, -30)%Z (0, 0, 100, 100)%Z
   = Ret (axis_gap (IZR (-30)) (IZR 0) (IZR 100)) /\
   axis_gap (IZR (-30)) (IZR 0) (IZR 100) = IZR (axis_gap_px (-30) 0 100) /\
   (0 < axis_gap_px (-30) 0 100)%Z) /\
  (Rounded.distance_point_to_rect hypot (150, 50)%Z (0, 0, 100, 100)%Z
   = Ret (axis_gap (IZR 150) (IZR 0) (IZR 100)) /\
   axis_gap (IZR 150) (IZR 0) (IZR 100) = IZR (axis_gap_px 150 0 100) /\
   (0 < axis_gap_px 150 0 100)%Z).
Proof.
  split.
  - apply (distance_px_axis_gap hypot 50 (-30) 0 0 100 100).
    + repeat split; apply exact_coord_small; simpl; lia.
    + simpl. lia.
    + unfold in_span. lia.
    + unfold off_span. lia.
  - apply (distance_px_axis_gap hypot 150 50 0 0 100 100).
    + repeat split; apply exact_coord_small; simpl; lia.
    + simpl. lia.
    + unfold in_span. lia.
    + unfold off_span. lia.
Defined.

(** X1.  On integer pixels a rectangle of zero width or height (a segment
    or a single point) is handled like a proper one: the result is the
    distance to the nearest point of it, exactly when the point is within
    a span and up to the relative error of [math.hypot] otherwise. *)
Theorem distance_px_degenerate
    (math_hypot : R -> R -> R) (eps : R) (cx cy x1 y1 x2 y2 : Z) :
  0 <= eps <= 1 ->
  hypot_accurate eps math_hypot ->
  pixel_range (cx, cy) (x1, y1, x2, y2) ->
  weak_px (x1, y1, x2, y2) ->
  exists d : R,
    Rounded.distance_point_to_rect math_hypot (cx, cy) (x1, y1, x2, y2)
    = Ret d /\
    in_rect (nearest_point (point_IZR (cx, cy)) (rect_IZR (x1, y1, x2, y2)))
            (rect_IZR (x1, y1, x2, y2)) /\
    (forall q : point R,
       in_rect q (rect_IZR (x1, y1, x2, y2)) ->
       reference_distance (point_IZR (cx, cy)) (rect_IZR (x1, y1, x2, y2))
       <= euclid (point_IZR (cx, cy)) q) /\
    (in_span cx x1 x2 \/ in_span cy y1 y2 ->
     d = reference_distance (point_IZR (cx, cy))
                            (rect_IZR (x1, y1, x2, y2))) /\
    Rabs (d - reference_distance (point_IZR (cx, cy))
                                 (rect_IZR (x1, y1, x2, y2)))
    <= eps * reference_distance (point_IZR (cx, cy))
                                (rect_IZR (x1, y1, x2, y2)).
Proof.
  intros He Hacc Hpx Hw.
  destruct (rounded_reference math_hypot eps (cx, cy) (x1, y1, x2, y2)
              He Hacc Hpx Hw) as (d & Ed & Hde & Hin).
  exists d. split; [ exact Ed |].
  split; [ apply nearest_point_in_weak_rect; apply weak_px_IZR; assumption |].
  split; [ intros q Hq; apply reference_distance_least; assumption |].
  split; [ exact Hin | exact Hde ].
Qed.

Lemma distance_px_degenerate_witness :
  exists d : R,
    Rounded.distance_point_to_rect hypot (3, 4)%Z (0, 0, 0, 0)%Z = Ret d /\
    in_rect (nearest_point (point_IZR (3, 4)%Z) (rect_IZR (0, 0, 0, 0)%Z))
            (rect_IZR (0, 0, 0, 0)%Z) /\
    (forall q : point R,
       in_rect q (rect_IZR (0, 0, 0, 0)%Z) ->
       reference_distance (point_IZR (3, 4)%Z) (rect_IZR (0, 0, 0, 0)%Z)
       <= euclid (point_IZR (3, 4)%Z) q) /\
    (in_span 3 0 0 \/ in_span 4 0 0 ->
     d = reference_distance (point_IZR (3, 4)%Z) (rect_IZR (0, 0, 0, 0)%Z)) /\
    Rabs (d - reference_distance (point_IZR (3, 4)%Z)
                                 (rect_IZR (0, 0, 0, 0)%Z))
    <= 0 * reference_distance (point_IZR (3, 4)%Z) (rect_IZR (0, 0, 0, 0)%Z).
Proof.
  apply (distance_px_degenerate hypot 0 3 4 0 0 0 0).
  - lra.
  - exact hypot_accurate_exact.
  - repeat split; apply exact_coord_small; simpl; lia.
  - simpl. lia.
Defined.

(** X2.  On integer pixels the distance is 1-Lipschitz in the point up to
    rounding: the results for two points differ by at most the Euclidean
    distance between the points plus the error [math.hypot] may make on
    each of them. *)
Theorem distance_px_lipschitz
    (math_hypot : R -> R -> R) (eps : R) (p q : point Z) (rect : rectangle Z) :
  0 <= eps <= 1 ->
  hypot_accurate eps math_hypot ->
  pixel_range p rect ->
  pixel_range q rect ->
  valid_px rect ->
  exists dp dq : R,
    Rounded.distance_point_to_rect math_hypot p rect = Ret dp /\
    Rounded.distance_point_to_rect math_hypot q rect = Ret dq /\
    Rabs (dp - dq)
    <= euclid (point_IZR p) (point_IZR q)
       + eps * (reference_distance (point_IZR p) (rect_IZR rect)
                + reference_distance (point_IZR q) (rect_IZR rect)).
Proof.
  intros He Hacc Hp Hq Hv.
  assert (Hw := valid_px_weak rect Hv).
  destruct (rounded_reference math_hypot eps p rect He Hacc Hp Hw)
    as (dp & Ep & Ap & _).
  destruct (rounded_reference math_hypot eps q rect He Hacc Hq Hw)
    as (dq & Eq & Aq & _).
  exists dp, dq. split; [ exact Ep |]. split; [ exact Eq |].
  assert (HwR := weak_px_IZR rect Hw).
  assert (L1 := reference_distance_lipschitz
                  (point_IZR p) (point_IZR q) (rect_IZR rect) HwR).
  assert (L2 := reference_distance_lipschitz
                  (point_IZR q) (point_IZR p) (rect_IZR rect) HwR).
  rewrite (euclid_sym (point_IZR q) (point_IZR p)) in L2.
  apply Rabs_le_bounds in Ap. apply Rabs_le_bounds in Aq.
  apply Rabs_le. lra.
Qed.

Lemma distance_px_lipschitz_witness :
  exists dp dq : R,
    Rounded.distance_point_to_rect hypot (110, 110)%Z (0, 0, 100, 100)%Z
    = Ret dp /\
    Rounded.distance_point_to_rect hypot (150, 50)%Z (0, 0, 100, 100)%Z
    = Ret dq /\
    Rabs (dp - dq)
    <= euclid (point_IZR (110, 110)%Z) (point_IZR (150, 50)%Z)
       + 0 * (reference_distance (point_IZR (110, 110)%Z)
                                 (rect_IZR (0, 0, 100, 100)%Z)
              + reference_distance (point_IZR (150, 50)%Z)
                                   (rect_IZR (0, 0, 100, 100)%Z)).
Proof.
  apply (distance_px_lipschitz hypot 0 (110, 110)%Z (150, 50)%Z
           (0, 0, 100, 100)%Z).
  - lra.
  - exact hypot_accurate_exact.
  - repeat split; apply exact_coord_small; simpl; lia.
  - repeat split; apply exact_coord_small; simpl; lia.
  - simpl. lia.
Defined.

(** ** No double is the square root of 200 *)

Lemma square_200_pow4 (k : nat) (m : Z) :
  (m * m = 200 * 4 ^ Z.of_nat k)%Z -> False.
Proof.
  revert m. induction k as [| k IH]; intros m E.
  - change (4 ^ Z.of_nat 0)%Z with 1%Z in E.
    assert (H : (-15 < m < 15)%Z) by nia.
    assert (H' : (m <= -15 \/ (-14 <= m <= 14) \/ 15 <= m)%Z) by lia.
    destruct H' as [H' | [H' | H']]; nia.
  - rewrite Nat2Z.inj_succ, Z.pow_succ_r in E by lia.
    destruct (Z.Even_or_Odd m) as [[h ->] | [h ->]].
    + apply (IH h). lia.
    + assert (Hodd : ((2 * h + 1) * (2 * h + 1) = 4 * (h * h + h) + 1)%Z)
        by ring.
      lia.
Qed.

Lemma dyadic_square_200 (n e : Z) :
  (IZR n * powerRZ 2 e) * (IZR n * powerRZ 2 e) = 200 -> False.
Proof.
  destruct e as [| p | p]; simpl; intros E.
  - apply (square_200_pow4 0 n). apply eq_IZR.
    rewrite mult_IZR. change (IZR (200 * 4 ^ Z.of_nat 0)) with 200. lra.
  - apply (square_200_pow4 0 (n * 2 ^ Z.of_nat (Pos.to_nat p))). apply eq_IZR.
    rewrite !mult_IZR, <- pow_IZR.
    change (IZR (4 ^ Z.of_nat 0)) with 1. lra.
  - assert (Hp : 0 < 2 ^ Pos.to_nat p) by (apply pow_lt; lra).
    apply (square_200_pow4 (Pos.to_nat p) n). apply eq_IZR.
    rewrite !mult_IZR, <- pow_IZR.
    replace (4 ^ Pos.to_nat p) with (2 ^ Pos.to_nat p * 2 ^ Pos.to_nat p)
      by (rewrite <- Rpow_mult_distr; f_equal; lra).
    replace (IZR n * IZR n)
      with (IZR n * / 2 ^ Pos.to_nat p * (IZR n * / 2 ^ Pos.to_nat p)
            * (2 ^ Pos.to_nat p * 2 ^ Pos.to_nat p))
      by (field; lra).
    rewrite E. reflexivity.
Qed.

Lemma value_square_200 (f : PrimFloat.float) (v : R) :
  Binary64.value f = Some v -> v * v <> 200.
Proof.
  unfold Binary64.value.
  destruct (FloatOps.Prim2SF f) as [s | s | | s m e]; intros E;
    try discriminate; injection E as <-.
  - lra.
  - intros H. exact (dyadic_square_200 _ _ H).
Qed.

(** * Rounding on binary64 values *)

Module Binary64Facts.
Import PrimFloat.

Lemma value_finite (f : float) (s : bool) (m : positive) (e : Z) :
  FloatOps.Prim2SF f = SpecFloat.S754_finite s m e ->
  Binary64.value f
  = Some (IZR (if s then Z.neg m else Z.pos m) * powerRZ 2 e)%R.
Proof. unfold Binary64.value. intros ->. reflexivity. Qed.

Lemma value_zero : Binary64.value 0 = Some 0%R.
Proof. reflexivity. Qed.

Lemma value_1 : Binary64.value 1 = Some 1%R.
Proof.
  rewrite (value_finite 1 false 4503599627370496 (-52))
    by (vm_compute; reflexivity).
  f_equal. simpl. lra.
Qed.

Lemma value_50 : Binary64.value 50 = Some 50%R.
Proof.
  rewrite (value_finite 50 false 7036874417766400 (-47))
    by (vm_compute; reflexivity).
  f_equal. simpl. lra.
Qed.

Lemma value_60 : Binary64.value 60 = Some 60%R.
Proof.
  rewrite (value_finite 60 false 8444249301319680 (-47))
    by (vm_compute; reflexivity).
  f_equal. simpl. lra.
Qed.

Lemma value_neg_60 : Binary64.value (-60) = Some (-60)%R.
Proof.
  rewrite (value_finite (-60) true 8444249301319680 (-47))
    by (vm_compute; reflexivity).
  f_equal. simpl. lra.
Qed.

Lemma value_100 : Binary64.value 100 = Some 100%R.
Proof.
  rewrite (value_finite 100 false 7036874417766400 (-46))
    by (vm_compute; reflexivity).
  f_equal. simpl. lra.
Qed.

Lemma value_tiny : Binary64.value 0x1p-60 = Some (/ 2 ^ 60)%R.
Proof.
  rewrite (value_finite 0x1p-60 false 4503599627370496 (-112))
    by (vm_compute; reflexivity).
  f_equal. simpl. lra.
Qed.

Lemma value_110 : Binary64.value 110 = Some 110%R.
Proof.
  rewrite (value_finite 110 false 7740561859543040 (-46))
    by (vm_compute; reflexivity).
  f_equal. simpl. lra.
Qed.

Lemma tiny_bounds : (0 < / 2 ^ 60 < 1)%R.
Proof. lra. Qed.

(** C1, as stated, fails on doubles.  [P = (50, 2^-60)] lies at distance
    1 - 2^-60 from the rectangle [(0, 1, 100, 100)]; the second branch computes
    [1.0 - 2^-60], which rounds to [1.0], more than the true distance.
    And for [P = (110, 110)] and [(0, 0, 100, 100)] the true distance is
    the square root of 200, which no double equals. *)
Lemma distance_overestimates :
  (forall math_hypot : float -> float -> float,
     Binary64.distance_point_to_rect math_hypot
       (50, 0x1p-60)%float (0, 1, 100, 100)%float = Ret 1%float) /\
  map Binary64.value [50; 0x1p-60; 0; 1; 100]%float
  = [Some 50; Some (/ 2 ^ 60); Some 0; Some 1; Some 100]%R /\
  valid_rect (0, 1, 100, 100)%R /\
  reference_distance (50, / 2 ^ 60)%R (0, 1, 100, 100)%R
  = (1 - / 2 ^ 60)%R /\
  (1 - / 2 ^ 60 < 1)%R /\
  (forall (math_hypot : float -> float -> float) (d : float),
     Binary64.distance_point_to_rect math_hypot
       (110, 110)%float (0, 0, 100, 100)%float = Ret d ->
     Binary64.value d
     <> Some (reference_distance (110, 110)%R (0, 0, 100, 100)%R)).
Proof.
  assert (T := tiny_bounds).
  split; [ intros math_hypot; reflexivity |].
  split.
  { simpl map. rewrite value_50, value_tiny, value_zero, value_1, value_100.
    reflexivity. }
  split; [ simpl; lra |].
  split; [| split; [ lra |] ].
  - unfold reference_distance, euclid, nearest_point. simpl.
    rewrite (clampR_inside 50) by lra.
    rewrite (clampR_below (/ 2 ^ 60)) by lra.
    replace (50 - 50)%R with 0%R by ring. rewrite hypot_0_l.
    rewrite Rabs_left1; lra.
  - intros math_hypot d _ E.
    apply (value_square_200 d _ E).
    unfold reference_distance, euclid, nearest_point. simpl.
    rewrite !(clampR_above 110) by lra.
    replace (110 - 100)%R with 10%R by ring.
    unfold hypot. rewrite sqrt_sqrt by lra. lra.
Qed.

(** C5, as stated, fails on doubles.  [P = (50, -60)] is within the
    horizontal span of [(0, 2^-60, 100, 100)] and above it; the vertical
    gap is 60 + 2^-60, and the call returns [60.0]. *)
Lemma gap_is_rounded :
  (forall math_hypot : float -> float -> float,
     Binary64.distance_point_to_rect math_hypot
       (50, -60)%float (0, 0x1p-60, 100, 100)%float = Ret 60%float) /\
  map Binary64.value [50; -60; 0; 0x1p-60; 100; 60]%float
  = [Some 50; Some (-60); Some 0; Some (/ 2 ^ 60); Some 100; Some 60]%R /\
  valid_rect (0, / 2 ^ 60, 100, 100)%R /\
  inside_span 50 0 100 /\
  outside_span (-60) (/ 2 ^ 60) 100 /\
  axis_gap (-60) (/ 2 ^ 60) 100 = (60 + / 2 ^ 60)%R /\
  (60 < 60 + / 2 ^ 60)%R.
Proof.
  assert (T := tiny_bounds).
  split; [ intros math_hypot; reflexivity |].
  split.
  { simpl map.
    rewrite value_50, value_neg_60, value_zero, value_tiny, value_100,
      value_60.
    reflexivity. }
  split; [ simpl; lra |].
  split; [ unfold inside_span; lra |].
  split; [ unfold outside_span; lra |].
  split; [| lra ].
  unfold axis_gap. destruct (Rlt_dec (-60) (/ 2 ^ 60)); lra.
Qed.

(** C4, as stated, fails on doubles.  For [R = (0,0,100,100)] and
    [P = (110,110)] the call returns the least of four values of
    [math.hypot]; the least Euclidean corner distance is the square root
    of 200, which no double equals, whatever [math.hypot] returns.  For
    [P = (1e16, 110)] and [R = (0, 0, 1, 100)] the offset [1e16 - 1]
    rounds to [1e16], so the corners at [x = 0] and at [x = 1] get the
    same arguments. *)
Lemma corner_distance_is_no_double :
  (forall math_hypot : float -> float -> float,
     Binary64.distance_point_to_rect math_hypot
       (110, 110)%float (0, 0, 100, 100)%float
     = Binary64.py_min [math_hypot 110 110; math_hypot 110 10;
                        math_hypot 10 110; math_hypot 10 10]%float) /\
  map Binary64.value [110; 0; 100]%float = [Some 110; Some 0; Some 100]%R /\
  corner_min (110, 110)%R (0, 0, 100, 100)%R = R_sqrt.sqrt 200 /\
  (forall (math_hypot : float -> float -> float) (d : float),
     Binary64.distance_point_to_rect math_hypot
       (110, 110)%float (0, 0, 100, 100)%float = Ret d ->
     Binary64.value d <> Some (corner_min (110, 110)%R (0, 0, 100, 100)%R)) /\
  (forall math_hypot : float -> float -> float,
     Binary64.distance_point_to_rect math_hypot
       (1e16, 110)%float (0, 0, 1, 100)%float
     = Binary64.py_min [math_hypot 1e16 110; math_hypot 1e16 10;
                        math_hypot 1e16 110; math_hypot 1e16 10]%float).
Proof.
  assert (C : corner_min (110, 110)%R (0, 0, 100, 100)%R = R_sqrt.sqrt 200).
  { unfold corner_min, euclid. simpl.
    replace (110 - 0)%R with 110%R by ring.
    replace (110 - 100)%R with 10%R by ring.
    rewrite (Rmin4_eq _ _ _ _ (hypot 10 10));
      [ | tauto | apply hypot_le; abs_lra .. ].
    unfold hypot. f_equal. lra. }
  split; [ intros math_hypot; reflexivity |].
  split.
  { simpl map. rewrite value_110, value_zero, value_100. reflexivity. }
  split; [ exact C |].
  split; [| intros math_hypot; reflexivity ].
  intros math_hypot d _ E. rewrite C in E.
  apply (value_square_200 d _ E).
  apply sqrt_sqrt. lra.
Qed.

End Binary64Facts.
